(** * AI customer-service chat: the agent server

    A shallow embedding of the server's agent module: the retry helper
    [retryWithBackoff], the inventory tool handler [itemLookupTool], the
    routing function [shouldContinue], the model node [callModel] and the
    turn entry point [callAgent]; and of the chat widget of the client
    ([ChatWidget]): its state, its handlers and its effect.

    Conventions of the embedding.
    - A JavaScript promise that resolves or rejects is an [outcome]:
      [Return v] or [Throw e].
    - The external collaborators (MongoDB collection, vector store,
      language model, checkpoint store) are a record of operations on an
      abstract provider state [W]; a computation is a function
      [W -> outcome A * W * list E] that also yields the log of the
      interactions it performed, in order.
    - Counts ([n], [totalCount], delays in ms) are integers [Z]; the bound
      [maxRetries] of the retry helper is a number, whole or not.
    - Console output is not modelled. *)

From Stdlib Require Import ZArith List String Ascii Bool Lia Arith DecimalString.
From Stdlib Require QArith Qround.
Import ListNotations.
Open Scope string_scope.
Open Scope Z_scope.
Open Scope list_scope.

Set Implicit Arguments.
Set Warnings "-register-all".

(* ================================================================= *)
(** ** JavaScript values that can be thrown *)

Module Js.

(** The value of a [status] property, compared with [===] in the source. *)
Inductive jsval : Type :=
| VUndefined
| VNum (z : Z)
| VStr (s : string).

(** A thrown value.  [ErrorObj] is an object for which
    [error instanceof Error] holds; [status] is [Some v] exactly when
    ["status" in error]; [cause] is the optional [cause] of the error.
    [OtherVal] is any other thrown value, with [str] its [String(error)]. *)
Inductive thrown : Type :=
| ErrorObj (name message : string) (status : option jsval) (cause : option thrown)
| OtherVal (str : string) (status : option jsval).

(** [new Error(message)] *)
Definition new_Error (message : string) : thrown :=
  ErrorObj "Error" message None None.

(** [error instanceof Error && "status" in error && error.status === code] *)
Definition has_status (error : thrown) (code : Z) : bool :=
  match error with
  | ErrorObj _ _ (Some (VNum z)) _ => z =? code
  | _ => false
  end.

(** [error instanceof Error ? error.message : String(error)] *)
Definition error_text (error : thrown) : string :=
  match error with
  | ErrorObj _ message _ _ => message
  | OtherVal str _ => str
  end.

(** The [cause] an error object carries, if any. *)
Definition cause_of (error : thrown) : option thrown :=
  match error with
  | ErrorObj _ _ _ cause => cause
  | OtherVal _ _ => None
  end.

Inductive outcome (A : Type) : Type :=
| Return (a : A)
| Throw (e : thrown).

Arguments Return {A} a.
Arguments Throw {A} e.

End Js.
Export Js.

(* ================================================================= *)
(** ** Computations over a provider state, with an interaction log *)

Module Eff.

Definition M (W E A : Type) : Type := W -> outcome A * W * list E.

Section Ops.
Context {W E : Type}.

Definition ret {A} (a : A) : M W E A := fun s => (Return a, s, []).

Definition throw {A} (e : thrown) : M W E A := fun s => (Throw e, s, []).

Definition bind {A B} (m : M W E A) (k : A -> M W E B) : M W E B :=
  fun s =>
    match m s with
    | (Return a, s1, t1) =>
        match k a s1 with
        | (r, s2, t2) => (r, s2, t1 ++ t2)
        end
    | (Throw e, s1, t1) => (Throw e, s1, t1)
    end.

(** [try { body } catch (error) { handler(error) }] *)
Definition try_catch {A} (body : M W E A) (handler : thrown -> M W E A)
  : M W E A :=
  fun s =>
    match body s with
    | (Return a, s1, t1) => (Return a, s1, t1)
    | (Throw e, s1, t1) =>
        match handler e s1 with
        | (r, s2, t2) => (r, s2, t1 ++ t2)
        end
    end.

(** Append one entry to the log. *)
Definition emit (ev : E) : M W E unit := fun s => (Return tt, s, [ev]).

(** Call a provider operation and log the call with its response. *)
Definition call {A} (op : W -> outcome A * W) (ev : outcome A -> E)
  : M W E A :=
  fun s => match op s with (r, s1) => (r, s1, [ev r]) end.

(** A pure step that may throw. *)
Definition lift_outcome {A} (r : outcome A) : M W E A := fun s => (r, s, []).
End Ops.

(** Run a computation whose log entries are of type [E] inside one whose
    entries are of type [F]. *)
Definition relabel {W E F A} (f : E -> F) (m : M W E A) : M W F A :=
  fun s => match m s with (r, s1, t) => (r, s1, map f t) end.

End Eff.
Export Eff.

Declare Scope eff_scope.
Delimit Scope eff_scope with eff.
Notation "x <- m ;; k" := (bind m (fun x => k))
  (at level 61, m at next level, right associativity) : eff_scope.
Notation "m ;;; k" := (bind m (fun _ => k))
  (at level 61, right associativity) : eff_scope.
Open Scope eff_scope.

(** Projections of a run. *)
Definition result_of {A W E} (x : outcome A * W * list E) : outcome A := fst (fst x).
Definition state_of {A W E} (x : outcome A * W * list E) : W := snd (fst x).
Definition log_of {A W E} (x : outcome A * W * list E) : list E := snd x.

(* ================================================================= *)
(** ** The retry helper *)

Module Retry.

(** Log entries of the helper: an entry of the wrapped operation, the start
    of attempt number [k] (the call [fn()]), or a wait of [ms] milliseconds
    ([setTimeout(resolve, delay)]). *)
Inductive wev (E : Type) : Type :=
| Inner (e : E)
| Attempt (k : Z)
| Sleep (ms : Z).

Arguments Inner {E} e.
Arguments Attempt {E} k.
Arguments Sleep {E} ms.

(** [error instanceof Error && "status" in error && error.status === 429] *)
Definition is_rate_limit (error : thrown) : bool := has_status error 429.

(** [Math.min(1000 * Math.pow(2, attempt), 30000)] *)
Definition backoff_delay (attempt : Z) : Z := Z.min (1000 * 2 ^ attempt) 30000.

(** [range_from] lists [count] consecutive integers from [start]. *)
Fixpoint range_from (start : Z) (count : nat) : list Z :=
  match count with
  | O => []
  | S c => start :: range_from (start + 1) c
  end.

(** The helper at a whole number [maxRetries], as in the call
    [retryWithBackoff(fn)] of the model node with the default 3.  The
    values [attempt] takes in
    [for (let attempt = 1; attempt <= maxRetries; attempt++)] are the
    integers from 1 to [maxRetries], none when [maxRetries < 1].  The
    helper at an arbitrary number is [retryWithBackoff_number] below; the
    two agree at the whole numbers
    ([RetryFacts.retryWithBackoff_number_whole]). *)
Definition attempt_range (maxRetries : Z) : list Z :=
  range_from 1 (Z.to_nat maxRetries).

Section Wrapper.
Context {W E A : Type}.
Variable fn : M W E A.
Variable maxRetries : Z.

(** The body of the [for] loop, iterated over the remaining values of
    [attempt].  The result [Return (Some v)] is [return v] from inside the
    loop, [Throw e] is [throw error], and [Return None] is the loop running
    to its end. *)
Fixpoint retry_loop (attempts : list Z) : M W (wev E) (option A) :=
  match attempts with
  | [] => ret None
  | attempt :: rest =>
      try_catch
        (emit (Attempt attempt) ;;;
         v <- relabel Inner fn ;;
         ret (Some v))
        (fun error =>
           if is_rate_limit error && (attempt <? maxRetries) then
             let delay := backoff_delay attempt in
             emit (Sleep delay) ;;;
             retry_loop rest
           else throw error)
  end.

Definition max_retries_exceeded : thrown := new_Error "Max retries exceeded".

Definition retryWithBackoff : M W (wev E) A :=
  r <- retry_loop (attempt_range maxRetries) ;;
  match r with
  | Some v => ret v
  | None => throw max_retries_exceeded
  end.
End Wrapper.

(** Observations on a log of the helper. *)
Fixpoint attempts_made {E} (t : list (wev E)) : nat :=
  match t with
  | [] => O
  | Attempt _ :: rest => S (attempts_made rest)
  | _ :: rest => attempts_made rest
  end.

Fixpoint sleeps {E} (t : list (wev E)) : list Z :=
  match t with
  | [] => []
  | Sleep ms :: rest => ms :: sleeps rest
  | _ :: rest => sleeps rest
  end.

Definition total_wait {E} (t : list (wev E)) : Z :=
  fold_right Z.add 0 (sleeps t).

(** The wait that immediately precedes the start of attempt [k]. *)
Fixpoint delay_before {E} (t : list (wev E)) (k : Z) : option Z :=
  match t with
  | [] => None
  | Sleep ms :: rest =>
      match rest with
      | Attempt k' :: _ => if k' =? k then Some ms else delay_before rest k
      | _ => delay_before rest k
      end
  | _ :: rest => delay_before rest k
  end.

(** The state and the outcome of the [j]-th consecutive call of the
    operation ([j] from 0), starting in state [s]. *)
Fixpoint state_after {W E A} (fn : M W E A) (s : W) (j : nat) : W :=
  match j with
  | O => s
  | S j' => state_after fn (state_of (fn s)) j'
  end.

Definition outcome_at {W E A} (fn : M W E A) (s : W) (j : nat) : outcome A :=
  result_of (fn (state_after fn s j)).

Definition rate_limited {A} (r : outcome A) : Prop :=
  exists e, r = Throw e /\ is_rate_limit e = true.

(** The log of a run of the helper that makes [m] attempts, the first one
    numbered [a], from state [s]: every attempt but the last is followed by
    its wait. *)
Fixpoint retry_trace {W E A} (fn : M W E A) (a : Z) (s : W) (m : nat)
  : list (wev E) :=
  match m with
  | O => []
  | S m' =>
      (Attempt a :: map Inner (log_of (fn s))) ++
      match m' with
      | O => []
      | _ => Sleep (backoff_delay a) :: retry_trace fn (a + 1) (state_of (fn s)) m'
      end
  end.

(** How the result of the loop is read off the outcome of an attempt. *)
Definition loop_result {A} (r : outcome A) : outcome (option A) :=
  match r with
  | Return v => Return (Some v)
  | Throw e => Throw e
  end.

(** The spec's reading of exhaustion: the helper fails with a wrapping
    error that carries the last underlying error as its [cause]. *)
Definition retries_exhausted_with_cause {A} (r : outcome A) (last : thrown)
  : Prop :=
  exists w, r = Throw w /\ cause_of w = Some last.

(** An operation that replays a fixed list of outcomes, one per call; its
    state is the part of the script still to be played. *)
Definition scripted {A} : M (list (outcome A)) Empty_set A :=
  fun s =>
    match s with
    | [] => (Throw (new_Error "script exhausted"), [], [])
    | r :: rest => (r, rest, [])
    end.

(** A provider error reporting "too many requests". *)
Definition too_many_requests : thrown :=
  ErrorObj "Error" "Too Many Requests" (Some (VNum 429)) None.

(** A provider error reporting an invalid API key. *)
Definition unauthorized : thrown :=
  ErrorObj "Error" "API key not valid" (Some (VNum 401)) None.

End Retry.
Export Retry.

(* ================================================================= *)
(** ** The retry helper for any number of attempts *)

Module RetryNumber.

(** [maxRetries] is a JavaScript number.  Here it is any rational, whole
    or not; [NaN] and the infinities are left out.  [attempt] itself only
    takes whole values: it starts at 1 and is incremented.
    [retryWithBackoff] above is the helper at the whole numbers. *)
Definition number : Set := QArith_base.Q.

Definition whole (z : Z) : number := QArith_base.inject_Z z.

(** [attempt <= maxRetries], the condition of the loop. *)
Definition attempt_le (attempt : Z) (maxRetries : number) : bool :=
  QArith_base.Qle_bool (QArith_base.inject_Z attempt) maxRetries.

(** [attempt < maxRetries], the guard of a retry. *)
Definition attempt_lt (attempt : Z) (maxRetries : number) : bool :=
  negb (QArith_base.Qle_bool maxRetries (QArith_base.inject_Z attempt)).

(** The values [attempt] takes in
    [for (let attempt = 1; attempt <= maxRetries; attempt++)]: the integers
    from 1 to the integer part of [maxRetries]. *)
Definition attempt_values (maxRetries : number) : list Z :=
  range_from 1 (Z.to_nat (Qround.Qfloor maxRetries)).

Section Wrapper.
Context {W E A : Type}.
Variable fn : M W E A.
Variable maxRetries : number.

(** The body of the [for] loop, as in [retry_loop], with the guard
    [attempt < maxRetries] read over the numbers. *)
Fixpoint retry_loop_number (attempts : list Z) : M W (wev E) (option A) :=
  match attempts with
  | [] => ret None
  | attempt :: rest =>
      try_catch
        (emit (Attempt attempt) ;;;
         v <- relabel Inner fn ;;
         ret (Some v))
        (fun error =>
           if is_rate_limit error && attempt_lt attempt maxRetries then
             let delay := backoff_delay attempt in
             emit (Sleep delay) ;;;
             retry_loop_number rest
           else throw error)
  end.

Definition retryWithBackoff_number : M W (wev E) A :=
  r <- retry_loop_number (attempt_values maxRetries) ;;
  match r with
  | Some v => ret v
  | None => throw (new_Error "Max retries exceeded")
  end.
End Wrapper.

(** The log of a run in which each of [m] attempts, the first one numbered
    [a], is followed by its wait. *)
Fixpoint retry_trace_all {W E A} (fn : M W E A) (a : Z) (s : W) (m : nat)
  : list (wev E) :=
  match m with
  | O => []
  | S m' =>
      (Attempt a :: map Inner (log_of (fn s))) ++
      Sleep (backoff_delay a)
      :: retry_trace_all fn (a + 1) (state_of (fn s)) m'
  end.

(** The outcome is an [Error] thrown with a [status] that is the number
    429, whatever its name, message and cause. *)
Definition throws_429 {A} (r : outcome A) : Prop :=
  exists name message cause,
    r = Throw (ErrorObj name message (Some (VNum 429)) cause).

(** The thrown value is anything else. *)
Definition not_429 (e : thrown) : Prop :=
  forall name message cause,
    e <> ErrorObj name message (Some (VNum 429)) cause.

(** Call [j] (from 0) of a run whose first attempt is numbered [a] is
    retried: it fails with the retry guard's condition on the error, and
    its number is below [maxRetries]. *)
Definition retried {W E A} (fn : M W E A) (maxRetries : number) (a : Z)
  (s : W) (j : nat) : Prop :=
  rate_limited (outcome_at fn s j) /\
  attempt_lt (a + Z.of_nat j) maxRetries = true.

End RetryNumber.
Export RetryNumber.

(* ================================================================= *)
(** ** Data: JSON values, messages, queries *)

Module Data.

Inductive json : Type :=
| JNull
| JBool (b : bool)
| JNum (z : Z)
| JStr (s : string)
| JArr (items : list json)
| JObj (fields : list (string * json)).

Fixpoint assoc (key : string) (fields : list (string * json)) : option json :=
  match fields with
  | [] => None
  | (k, v) :: rest => if String.eqb k key then Some v else assoc key rest
  end.

(** [j.key] for an object; absent otherwise. *)
Definition get_field (key : string) (j : json) : option json :=
  match j with
  | JObj fields => assoc key fields
  | _ => None
  end.

(** The content of a message: a text, or the string [JSON.stringify(j)],
    kept as the value [j] it serialises. *)
Inductive content : Type :=
| Text (s : string)
| Stringified (j : json).

Record tool_call : Type := {
  tc_name : string;
  tc_args : json;
  tc_id : string
}.

Inductive message : Type :=
| SystemMessage (text : string)
| HumanMessage (text : string)
| AIMessage (text : string) (tool_calls : list tool_call)
| ToolMessage (body : content) (tool_call_id : string).

Definition message_content (m : message) : content :=
  match m with
  | SystemMessage text => Text text
  | HumanMessage text => Text text
  | AIMessage text _ => Text text
  | ToolMessage body _ => body
  end.

(** [messages[messages.length - 1]] *)
Definition last_message (messages : list message) : option message :=
  nth_error messages (List.length messages - 1).

(** The last message of the model among [messages], searched from the
    end. *)
Fixpoint last_ai_message (messages : list message) : option message :=
  match messages with
  | [] => None
  | m :: rest =>
      match last_ai_message rest with
      | Some found => Some found
      | None =>
          match m with
          | AIMessage _ _ => Some m
          | _ => None
          end
      end
  end.

(** A MongoDB query document, as far as the source writes them:
    [{}], [{ field: { $regex: pattern, $options: options } }] and
    [{ $or: [...] }]. *)
Inductive filter : Type :=
| FAll
| FRegex (field pattern options : string)
| FOr (clauses : list filter).

End Data.
Export Data.

(* ================================================================= *)
(** ** The external collaborators *)

Module Providers.

(** The operations the agent module calls on its collaborators, over a
    provider state [W].  Each may resolve or reject.
    - [countDocuments]: [collection.countDocuments()]
    - [find f k]: [collection.find(f).limit(k).toArray()]
    - [newVectorStore]: building the embeddings client and the
      [MongoDBAtlasVectorSearch] store
    - [similaritySearchWithScore q k]: the store's similarity search,
      documents paired with their scores
    - [invoke prompt]: [model.invoke(formattedPrompt)]
    - [load_thread id]: the messages the checkpoint store holds for the
      thread; the store is taken to be reliable: reading it succeeds and
      saving a state succeeds, so a turn that fails because the store
      fails is outside this model
    - [current_time]: [new Date().toISOString()], read off the state
    - [recursionLimitMessage limit]: the message of the error the graph
      runtime raises when the step bound [limit] is used up; the text is
      the library's
    - [toolFailureText call error]: the content of the tool message with
      which the prebuilt tool node answers a call it could not run (no
      such tool, or arguments that do not fit the schema: [None]) or a
      call whose tool threw ([Some error]); the text is the library's. *)
Record providers (W : Type) : Type := {
  countDocuments : W -> outcome Z * W;
  find : filter -> Z -> W -> outcome (list json) * W;
  newVectorStore : W -> outcome unit * W;
  similaritySearchWithScore :
    string -> Z -> W -> outcome (list (json * Z)) * W;
  invoke : list message -> W -> outcome message * W;
  load_thread : string -> W -> list message;
  current_time : W -> string;
  recursionLimitMessage : nat -> string;
  toolFailureText : tool_call -> option thrown -> string
}.

(** The log of interactions: each call with the response it got. *)
Inductive pev : Type :=
| CountDocuments (r : outcome Z)
| Find (f : filter) (limit : Z) (r : outcome (list json))
| NewVectorStore (r : outcome unit)
| SimilaritySearch (query : string) (n : Z) (r : outcome (list (json * Z)))
| Invoke (prompt : list message) (r : outcome message).

(** The call was rejected with [e]. *)
Definition failure_of (ev : pev) : option thrown :=
  match ev with
  | CountDocuments (Throw e) => Some e
  | Find _ _ (Throw e) => Some e
  | NewVectorStore (Throw e) => Some e
  | SimilaritySearch _ _ (Throw e) => Some e
  | Invoke _ (Throw e) => Some e
  | _ => None
  end.

(** The call is a search of the inventory. *)
Definition is_search (ev : pev) : bool :=
  match ev with
  | Find _ _ _ => true
  | SimilaritySearch _ _ _ => true
  | _ => false
  end.

(** The call is a call of the language model. *)
Definition is_invoke (ev : pev) : bool :=
  match ev with
  | Invoke _ _ => true
  | _ => false
  end.

End Providers.
Export Providers.

(* ================================================================= *)
(** ** The inventory tool handler *)

Module Lookup.

(** The query document of the text search. *)
Definition text_filter (query : string) : filter :=
  FOr [ FRegex "item_name" query "i";
        FRegex "item_description" query "i";
        FRegex "categories" query "i";
        FRegex "embedding_text" query "i" ].

(** A scored match [[document, score]] as it is serialised. *)
Definition scored (hit : json * Z) : json := JArr [fst hit; JNum (snd hit)].

Definition empty_inventory_result : json :=
  JObj [ ("error", JStr "No items found in inventory");
         ("message", JStr "The inventory database appears to ne empty");
         ("count", JNum 0) ].

Definition text_result (query : string) (textResult : list json) : json :=
  JObj [ ("results", JArr textResult);
         ("searchType", JStr "text");
         ("query", JStr query);
         ("count", JNum (Z.of_nat (List.length textResult))) ].

Definition vector_result (query : string) (result : list (json * Z)) : json :=
  JObj [ ("results", JArr (map scored result));
         ("searchType", JStr "vector");
         ("query", JStr query);
         ("count", JNum (Z.of_nat (List.length result))) ].

Definition failure_result (query : string) (error : thrown) : json :=
  JObj [ ("error", JStr "Failde to seach inventory");
         ("details", JStr (error_text error));
         ("query", JStr query) ].

Section Handler.
Context {W : Type}.
Variable P : providers W.

(** The handler of the [item_lookup] tool; its result is the value handed
    to [JSON.stringify]. *)
Definition itemLookupTool (query : string) (n : Z) : M W pev json :=
  try_catch
    (totalCount <- call (countDocuments P) CountDocuments ;;
     if totalCount =? 0 then
       ret empty_inventory_result
     else
       sampleDocs <- call (find P FAll 3) (Find FAll 3) ;;
       vectorStore <- call (newVectorStore P) NewVectorStore ;;
       result <- call (similaritySearchWithScore P query n)
                      (SimilaritySearch query n) ;;
       if Z.of_nat (List.length result) =? 0 then
         textResult <- call (find P (text_filter query) n)
                            (Find (text_filter query) n) ;;
         ret (text_result query textResult)
       else
         ret (vector_result query result))
    (fun error => ret (failure_result query error)).

End Handler.

(** The shape the spec promises for a successful lookup: a [searchType] of
    ["vector"] or ["text"], and a [count] equal to the length of [results]. *)
Definition search_result_shape (j : json) : Prop :=
  (get_field "searchType" j = Some (JStr "vector") \/
   get_field "searchType" j = Some (JStr "text")) /\
  exists items,
    get_field "results" j = Some (JArr items) /\
    get_field "count" j = Some (JNum (Z.of_nat (List.length items))).

(** A result that carries an error descriptor and a count of 0. *)
Definition empty_inventory_shape (j : json) : Prop :=
  (exists d, get_field "error" j = Some (JStr d)) /\
  get_field "count" j = Some (JNum 0).

(** A structured error result: an [error] field and the message of the
    failure. *)
Definition error_result_shape (j : json) (message : string) : Prop :=
  (exists d, get_field "error" j = Some (JStr d)) /\
  get_field "details" j = Some (JStr message).

End Lookup.
Export Lookup.

(* ================================================================= *)
(** ** A collection held in memory *)

Module Mongo.

Section Engine.
(** [regex pattern options subject]: whether the regular expression
    [pattern], under [options], matches somewhere in [subject].  The
    engine is the database's. *)
Variable regex : string -> string -> string -> bool.

(** [$regex] on a field value: a string is matched itself, an array when
    one of its string elements matches. *)
Definition value_matches (pattern options : string) (v : json) : bool :=
  match v with
  | JStr s => regex pattern options s
  | JArr items =>
      existsb (fun item =>
                 match item with
                 | JStr s => regex pattern options s
                 | _ => false
                 end) items
  | _ => false
  end.

Definition field_matches (field pattern options : string) (doc : json)
  : bool :=
  match get_field field doc with
  | Some v => value_matches pattern options v
  | None => false
  end.

Fixpoint matches (f : filter) (doc : json) : bool :=
  match f with
  | FAll => true
  | FRegex field pattern options => field_matches field pattern options doc
  | FOr clauses => existsb (fun c => matches c doc) clauses
  end.

(** [cursor.limit(k)]: 0 is no limit, a negative [k] limits to [|k|]. *)
Definition limit (k : Z) (l : list json) : list json :=
  if k =? 0 then l else firstn (Z.to_nat (Z.abs k)) l.

(** [collection.find(f).limit(k).toArray()] over the documents [docs]. *)
Definition find_in (docs : list json) (f : filter) (k : Z) : list json :=
  limit k (List.filter (matches f) docs).

End Engine.

(** ASCII lower case. *)
Definition lower (c : ascii) : ascii :=
  let n := nat_of_ascii c in
  if ((65 <=? n) && (n <=? 90))%nat then ascii_of_nat (n + 32) else c.

Fixpoint lowercase (s : string) : string :=
  match s with
  | EmptyString => EmptyString
  | String c rest => String (lower c) (lowercase rest)
  end.

(** [p] occurs in [s]. *)
Fixpoint contains (p s : string) : bool :=
  String.prefix p s ||
  match s with
  | EmptyString => false
  | String _ rest => contains p rest
  end.

(** Case-insensitive substring match. *)
Definition ci_substring (query subject : string) : bool :=
  contains (lowercase query) (lowercase subject).

(** The engine on patterns without metacharacters: a literal search,
    case-insensitive under the option ["i"]. *)
Definition literal_regex (pattern options subject : string) : bool :=
  if String.eqb options "i" then ci_substring pattern subject
  else contains pattern subject.

(** The spec's reading of the text fallback: a case-insensitive substring
    match across the item name, description and category fields. *)
Definition spec_text_match (query : string) (doc : json) : bool :=
  existsb
    (fun field =>
       field_matches (fun p _ s => ci_substring p s) field query "i" doc)
    ["item_name"; "item_description"; "categories"].

(** A provider state for running the module on concrete data: the
    documents of the collection, the answer of the similarity search, the
    answers of the language model in order ([llm_default] once they are
    used up), the stored messages of the thread, and a clock, in seconds,
    that ticks with every call of the model. *)
Record world : Type := {
  docs : list json;
  vector_hits : outcome (list (json * Z));
  llm_script : list (outcome message);
  llm_default : outcome message;
  history : list message;
  clock : nat
}.

Definition next_answer (w : world) : outcome message * world :=
  match llm_script w with
  | [] =>
      (llm_default w,
       {| docs := docs w; vector_hits := vector_hits w;
          llm_script := []; llm_default := llm_default w;
          history := history w; clock := S (clock w) |})
  | r :: rest =>
      (r, {| docs := docs w; vector_hits := vector_hits w;
             llm_script := rest; llm_default := llm_default w;
             history := history w; clock := S (clock w) |})
  end.

(** The time of the clock in the format of [toISOString]. *)
Definition timestamp (seconds : nat) : string :=
  ("2025-01-01T00:00:"
   ++ (if (seconds <? 10)%nat then "0" else "")
   ++ NilZero.string_of_uint (Nat.to_uint seconds) ++ ".000Z")%string.

(** The collaborators over a [world].  The two texts of the libraries are
    stand-ins: no property below depends on what they are. *)
Definition store_providers (regex : string -> string -> string -> bool)
  : providers world :=
  {| countDocuments := fun w => (Return (Z.of_nat (List.length (docs w))), w);
     find := fun f k w => (Return (find_in regex (docs w) f k), w);
     newVectorStore := fun w => (Return tt, w);
     similaritySearchWithScore := fun _ _ w => (vector_hits w, w);
     invoke := fun _ w => next_answer w;
     load_thread := fun _ w => history w;
     current_time := fun w => timestamp (clock w);
     recursionLimitMessage := fun _ => "(recursion limit message)";
     toolFailureText := fun _ _ => "(tool failure message)" |}.

End Mongo.
Export Mongo.

(* ================================================================= *)
(** ** The agent graph and the turn *)

Module Agent.

(** The reducer of the [messages] channel: [(x, y) => x.concat(y)]. *)
Definition reducer (x y : list message) : list message := x ++ y.

Inductive route : Type := ToTools | ToEnd.

Definition undefined_tool_calls : thrown :=
  ErrorObj "TypeError"
    "Cannot read properties of undefined (reading 'tool_calls')" None None.

(** ["tools"] when the last message carries tool calls, ["__end__"]
    otherwise. *)
Definition shouldContinue (messages : list message) : outcome route :=
  match last_message messages with
  | None => Throw undefined_tool_calls
  | Some (AIMessage _ (_ :: _)) => Return ToTools
  | Some _ => Return ToEnd
  end.

(** The system instruction: the template of the source, character for
    character, with [time] in the place of [{time}]. *)
Definition system_prompt (time : string) : string :=
  ("You are a hrlpful E-Commerce Chatbot Agent for a furniture store.
					IMPORTANT: You have access to an item_lookup tool that searches the
					furniture inventory database. ALWAYS use this tool when customers
					ask about futiniture items, even if the tool returns errors or empty results.
					
					When using the item_lookup tool:
					-If it returns results, provide helpful details about the furniture items
					-IF it returns an error or no results, acknowledge this and offer to help in other ways.
					-If the database appears to be empty, let the customer know that inventory might be being updates.
					
					Current time: " ++ time)%string.

Inductive node : Type := AgentNode | ToolsNode.

(** Where a saved state comes from: the input of the turn, the entry step
    that merges the input into the state, or a step of the graph that ran
    the given node. *)
Inductive source : Type := Input | Start | Loop (n : node).

(** Log entries of a turn: a state saved by the graph runtime, or an entry
    of a node. *)
Inductive gev : Type :=
| Checkpoint (src : source) (messages : list message)
| Within (e : wev pev).

Definition rate_limit_message : string :=
  "Service temporarily unavailable due to rate limits. Please try again later.".

Definition authentication_message : string :=
  "Authentication failed. Please check your API configuration.".

Section Graph.
Context {W : Type}.
Variable P : providers W.

(** The error of the graph runtime for a used-up step bound. *)
Definition graph_recursion_error (recursionLimit : nat) : thrown :=
  ErrorObj "GraphRecursionError" (recursionLimitMessage P recursionLimit)
    None None.

(** [prompt.formatMessages({ time: new Date().toISOString(), messages })]:
    the system instruction stamped with the current time, then the
    messages of the state. *)
Definition formatMessages (state : list message) (s : W) : list message :=
  SystemMessage (system_prompt (current_time P s)) :: state.

(** The [agent] node: one call of the model under the retry helper; the
    prompt is formatted anew at every attempt; the update is the model's
    answer. *)
Definition callModel (state : list message)
  : M W (wev pev) (list message) :=
  retryWithBackoff
    (fun s =>
       (let formattedPrompt := formatMessages state s in
        result <- call (invoke P formattedPrompt) (Invoke formattedPrompt) ;;
        ret [result]) s)
    3.

(** The argument [n] of a tool call: 10 when absent. *)
Definition n_argument (args : json) : option Z :=
  match get_field "n" args with
  | None => Some 10
  | Some (JNum z) => Some z
  | Some _ => None
  end.

(** The ids of the tool calls the state already answers. *)
Definition answered_ids (state : list message) : list string :=
  flat_map (fun m =>
              match m with
              | ToolMessage _ id => [id]
              | _ => []
              end) state.

(** The tool calls of a message that the state does not answer yet. *)
Definition unanswered (state : list message) (calls : list tool_call)
  : list tool_call :=
  List.filter
    (fun c => negb (existsb (String.eqb (tc_id c)) (answered_ids state)))
    calls.

(** Modelled on the library's prebuilt [ToolNode], which is not part of the
    repository.  The node takes the last message of the model in the
    state; of its tool calls, those whose id the state does not answer yet
    are each answered by one tool message, in the order of the calls, and
    the others are skipped.  A call of [item_lookup] whose arguments fit
    the schema ([query] a string, [n] a number, 10 when absent) runs the
    handler and is answered by its result; any other call, and a call
    whose tool throws, is answered by the library's failure text.  The
    library starts the calls of one message together, so that the
    interactions of two handlers can interleave; here they run one after
    the other, which is the same for a message with a single call to
    run. *)
Definition run_tool (c : tool_call) : M W pev message :=
  if String.eqb (tc_name c) "item_lookup" then
    match get_field "query" (tc_args c), n_argument (tc_args c) with
    | Some (JStr query), Some n =>
        try_catch
          (r <- itemLookupTool P query n ;;
           ret (ToolMessage (Stringified r) (tc_id c)))
          (fun error =>
             ret (ToolMessage (Text (toolFailureText P c (Some error)))
                              (tc_id c)))
    | _, _ => ret (ToolMessage (Text (toolFailureText P c None)) (tc_id c))
    end
  else ret (ToolMessage (Text (toolFailureText P c None)) (tc_id c)).

Fixpoint run_tools (calls : list tool_call) : M W pev (list message) :=
  match calls with
  | [] => ret []
  | c :: rest =>
      m <- run_tool c ;;
      ms <- run_tools rest ;;
      ret (m :: ms)
  end.

Definition toolNode (state : list message) : M W (wev pev) (list message) :=
  match last_ai_message state with
  | Some (AIMessage _ calls) =>
      relabel Inner (run_tools (unanswered state calls))
  | _ => throw (new_Error "ToolNode only accepts AIMessages as input.")
  end.

(** The step bound is checked after a step is saved and before the next
    one is prepared: with no step left the run fails, also when the graph
    has just reached its end. *)
Definition check_bound (recursionLimit steps : nat) : M W gev unit :=
  match steps with
  | O => throw (graph_recursion_error recursionLimit)
  | S _ => ret tt
  end.

(** The result of a step after which the graph has reached its end, with
    [steps] steps left. *)
Definition at_end (recursionLimit steps : nat) (state : list message)
  : outcome (list message) :=
  match steps with
  | O => Throw (graph_recursion_error recursionLimit)
  | S _ => Return state
  end.

(** Modelled on the library's graph runtime, which is not part of the
    repository.  The compiled graph runs the nodes one step at a time along
    the edges [__start__ -> agent], [agent -> shouldContinue] and
    [tools -> agent]; the conditional edge is evaluated with the step of
    its node; the update of a node is merged into the state by the reducer
    and the state is saved.  [recursionLimit] bounds the number of steps of
    one invocation after the entry step: [steps] is the number of steps
    still allowed, and after the step that uses up the last one the run
    fails with the recursion error, whether or not the graph has reached
    its end with that step.  So with a bound of 15 a final answer of the
    model in step 14 is returned, and one in step 15 is not. *)
Fixpoint run_graph (recursionLimit steps : nat) (next : node)
  (state : list message) : M W gev (list message) :=
  match steps with
  | O => throw (graph_recursion_error recursionLimit)
  | S steps' =>
      match next with
      | AgentNode =>
          update <- relabel Within (callModel state) ;;
          let state' := reducer state update in
          r <- lift_outcome (shouldContinue state') ;;
          emit (Checkpoint (Loop AgentNode) state') ;;;
          check_bound recursionLimit steps' ;;;
          match r with
          | ToTools => run_graph recursionLimit steps' ToolsNode state'
          | ToEnd => ret state'
          end
      | ToolsNode =>
          update <- relabel Within (toolNode state) ;;
          let state' := reducer state update in
          emit (Checkpoint (Loop ToolsNode) state') ;;;
          check_bound recursionLimit steps' ;;;
          run_graph recursionLimit steps' AgentNode state'
      end
  end.

(** [app.invoke({ messages: input }, { recursionLimit, thread_id })]: the
    stored state is saved as the input of the turn, the entry step merges
    the input into it, and the graph runs from the [agent] node. *)
Definition app_invoke (input : list message) (recursionLimit : nat)
  (thread_id : string) : M W gev (list message) :=
  fun s =>
    let stored := load_thread P thread_id s in
    let state := reducer stored input in
    (emit (Checkpoint Input stored) ;;;
     emit (Checkpoint Start state) ;;;
     run_graph recursionLimit recursionLimit AgentNode state) s.

(** The [catch] block of [callAgent]. *)
Definition on_error (error : thrown) : thrown :=
  if has_status error 429 then new_Error rate_limit_message
  else if has_status error 401 then new_Error authentication_message
  else new_Error ("Agent failed: " ++ error_text error)%string.

Definition callAgent (message id : string) : M W gev content :=
  try_catch
    (finalState <- app_invoke [HumanMessage message] 15 id ;;
     match last_message finalState with
     | Some m => ret (message_content m)
     | None =>
         throw (ErrorObj "TypeError"
                  "Cannot read properties of undefined (reading 'content')"
                  None None)
     end)
    (fun error => throw (on_error error)).

End Graph.

(** Observations on the log of a turn. *)
Fixpoint checkpoints (t : list gev) : list (list message) :=
  match t with
  | [] => []
  | Checkpoint _ messages :: rest => messages :: checkpoints rest
  | _ :: rest => checkpoints rest
  end.

(** Each saved state extends the one before it at the tail. *)
Fixpoint append_only (previous : list message) (states : list (list message))
  : Prop :=
  match states with
  | [] => True
  | state :: rest =>
      (exists added, state = previous ++ added) /\ append_only state rest
  end.

(** Number of steps that ran the node [n]. *)
Fixpoint node_runs (n : node) (t : list gev) : nat :=
  match t with
  | [] => O
  | Checkpoint (Loop AgentNode) _ :: rest =>
      match n with
      | AgentNode => S (node_runs n rest)
      | ToolsNode => node_runs n rest
      end
  | Checkpoint (Loop ToolsNode) _ :: rest =>
      match n with
      | AgentNode => node_runs n rest
      | ToolsNode => S (node_runs n rest)
      end
  | _ :: rest => node_runs n rest
  end.

Definition steps_run (t : list gev) : nat :=
  (node_runs AgentNode t + node_runs ToolsNode t)%nat.

(** Number of calls of the language model. *)
Fixpoint model_calls (t : list gev) : nat :=
  match t with
  | [] => O
  | Within (Inner (Invoke _ _)) :: rest => S (model_calls rest)
  | _ :: rest => model_calls rest
  end.

(** The spec's cycle: one call of the model followed by the execution of
    the tools it asked for. *)
Definition cycles (t : list gev) : nat := node_runs ToolsNode t.


Fixpoint last_entry {X : Type} (l : list X) : option X :=
  match l with
  | [] => None
  | x :: rest =>
      match rest with
      | [] => Some x
      | _ => last_entry rest
      end
  end.




(** The entries of a step that ran the tools: calls of the inventory. *)
Definition tool_entry (ev : gev) : Prop :=
  match ev with
  | Within (Inner e) => is_invoke e = false
  | _ => False
  end.

(** A language model that answers every prompt with a request for tools. *)
Definition always_requests_tool {W} (P : providers W) : Prop :=
  forall prompt w,
    exists text c calls w',
      invoke P prompt w = (Return (AIMessage text (c :: calls)), w').

End Agent.
Export Agent.

(* ================================================================= *)
(** ** Concrete data for running the module *)

Module Scenario.

Definition oak_table : json :=
  JObj [ ("item_name", JStr "Dining Table");
         ("item_description", JStr "Seats six");
         ("categories", JArr [JStr "Dining"; JStr "Tables"]);
         ("embedding_text", JStr "Solid Oak dining table") ].

Definition blue_sofa : json :=
  JObj [ ("item_name", JStr "Blue Sofa");
         ("item_description", JStr "Three seats");
         ("categories", JArr [JStr "Living room"]);
         ("embedding_text", JStr "blue sofa") ].

Definition lookup_oak : tool_call :=
  {| tc_name := "item_lookup";
     tc_args := JObj [("query", JStr "oak")];
     tc_id := "call_1" |}.

(** The collaborators, with the literal engine for [$regex]. *)
Definition shop : providers world := store_providers literal_regex.

(** Two items, no similarity match, and a model that always asks for the
    tool. *)
Definition tool_loop_world : world :=
  {| docs := [oak_table; blue_sofa];
     vector_hits := Return [];
     llm_script := [];
     llm_default := Return (AIMessage "" [lookup_oak]);
     history := [];
     clock := 0 |}.

(** Two items and a similarity search that fails. *)
Definition search_down_world : world :=
  {| docs := [oak_table; blue_sofa];
     vector_hits := Throw (new_Error "connection reset");
     llm_script := [];
     llm_default := Return (AIMessage "Sorry." []);
     history := [];
     clock := 0 |}.



(** A model that asks for the tool once and then answers. *)
Definition answering_world : world :=
  {| docs := [oak_table; blue_sofa];
     vector_hits := Return [(blue_sofa, 93)];
     llm_script := [Return (AIMessage "" [lookup_oak])];
     llm_default := Return (AIMessage "Yes, we have one." []);
     history := [HumanMessage "Hello"; AIMessage "Hi, how can I help?" []];
     clock := 0 |}.

(** Collaborators whose model asks for the tool on every call, whatever
    the state. *)
Definition tool_loop_shop : providers world :=
  {| countDocuments := countDocuments shop;
     find := find shop;
     newVectorStore := newVectorStore shop;
     similaritySearchWithScore := similaritySearchWithScore shop;
     invoke := fun _ w => (Return (AIMessage "" [lookup_oak]), w);
     load_thread := load_thread shop;
     current_time := current_time shop;
     recursionLimitMessage := recursionLimitMessage shop;
     toolFailureText := toolFailureText shop |}.

End Scenario.
Export Scenario.

(* ================================================================= *)
(** ** The chat widget of the client *)

Module Widget.

(** A message of the widget: [{ text?, isAgent }]; the reply of the agent
    is stored with the [threadId] of the response as a third field. *)
Record Message : Type := {
  text : option string;
  isAgent : bool;
  reply_threadId : option string
}.

(** The four [useState] cells of the component. *)
Record state : Type := {
  isOpen : bool;
  inputValue : string;
  messages : list Message;
  threadId : option string
}.

Definition initial : state :=
  {| isOpen := false; inputValue := ""; messages := []; threadId := None |}.

Definition greeting : Message :=
  {| text :=
       Some "Hello! I'm yout shoppping assistant. How can I help you today?";
     isAgent := true;
     reply_threadId := None |}.

(** The first [useEffect]: when the widget is open and shows no message,
    the messages become the greeting. *)
Definition greet (st : state) : state :=
  if isOpen st && (Z.of_nat (List.length (messages st)) =? 0) then
    {| isOpen := isOpen st; inputValue := inputValue st;
       messages := [greeting]; threadId := threadId st |}
  else st.

Definition toggleChat (st : state) : state :=
  {| isOpen := negb (isOpen st); inputValue := inputValue st;
     messages := messages st; threadId := threadId st |}.

Definition handleInputChange (value : string) (st : state) : state :=
  {| isOpen := isOpen st; inputValue := value;
     messages := messages st; threadId := threadId st |}.

(** The request [handleMessage] sends: a POST of [{ message }] as JSON. *)
Record request : Type := {
  url : string;
  body_message : string
}.

(** [threadId ? `http://localhost:8000/chat${threadId}`
             : "http://localhost:8000/chat"]; an absent and an empty
    thread id are both falsy. *)
Definition endpoint (st : state) : string :=
  match threadId st with
  | Some (String c rest) =>
      ("http://localhost:8000/chat" ++ String c rest)%string
  | _ => "http://localhost:8000/chat"
  end.

(** [handleMessage] up to the [fetch]: the typed text is appended as a
    message of the user, the input is cleared, and the request is sent. *)
Definition submit (st : state) : state * request :=
  ({| isOpen := isOpen st; inputValue := "";
      messages := messages st
                  ++ [{| text := Some (inputValue st); isAgent := false;
                         reply_threadId := None |}];
      threadId := threadId st |},
   {| url := endpoint st; body_message := inputValue st |}).

(** How the request ends: [fetch] rejects; the response is not [ok]; its
    body is not JSON; or it is [ok] with the JSON body [data], of which
    [data.response] and [data.threadId] are read. *)
Inductive fetched : Type :=
| Rejected
| NotOk (status : Z)
| BadJson
| Ok (data_response : option string) (data_threadId : option string).

(** [handleMessage] from the [fetch] on: a good response appends the reply
    and stores its thread id; anything else is caught and only logged. *)
Definition settle (r : fetched) (st : state) : state :=
  match r with
  | Ok data_response data_threadId =>
      {| isOpen := isOpen st; inputValue := inputValue st;
         messages := messages st
                     ++ [{| text := data_response; isAgent := true;
                            reply_threadId := data_threadId |}];
         threadId := data_threadId |}
  | _ => st
  end.

(** The widget with its requests in flight. *)
Record widget : Type := {
  ui : state;
  in_flight : list request
}.

(** What can happen to the widget.  The input and the form are rendered
    only while the widget is open; a request settles at any later time. *)
Inductive event : Type :=
| Toggle
| Typed (value : string)
| Submit
| Settled (r : fetched).

Definition react (w : widget) (ev : event) : widget :=
  match ev with
  | Toggle => {| ui := toggleChat (ui w); in_flight := in_flight w |}
  | Typed value =>
      if isOpen (ui w) then
        {| ui := handleInputChange value (ui w); in_flight := in_flight w |}
      else w
  | Submit =>
      if isOpen (ui w) then
        {| ui := fst (submit (ui w));
           in_flight := in_flight w ++ [snd (submit (ui w))] |}
      else w
  | Settled r =>
      match in_flight w with
      | [] => w
      | _ :: rest => {| ui := settle r (ui w); in_flight := rest |}
      end
  end.

(** An event, then the effect that follows the render. *)
Definition step (w : widget) (ev : event) : widget :=
  {| ui := greet (ui (react w ev)); in_flight := in_flight (react w ev) |}.

Definition run (w : widget) (evs : list event) : widget :=
  fold_left step evs w.

Definition mounted : widget := {| ui := initial; in_flight := [] |}.

(** The message [handleMessage] appends for the user. *)
Definition user_message (value : string) : Message :=
  {| text := Some value; isAgent := false; reply_threadId := None |}.


End Widget.

(* ================================================================= *)
(** * Properties *)

(** ** The retry helper *)

Module RetryFacts.

Section Run.
Context {W E A : Type}.
Variable fn : M W E A.
Variable maxRetries : Z.

(** The values of [attempt] are the integers from 1 to [maxRetries]. *)
Lemma in_range_from (x : Z) (n : nat) :
  forall a, In x (range_from a n) <-> a <= x < a + Z.of_nat n.
Proof.
  induction n as [| n IH]; intros a; cbn [range_from In].
  - lia.
  - rewrite IH. lia.
Qed.

Lemma in_attempt_range (x : Z) :
  In x (attempt_range maxRetries) <-> 1 <= x <= maxRetries.
Proof. unfold attempt_range. rewrite in_range_from. lia. Qed.

(** One iteration of the loop, by the outcome of the call. *)
Lemma retry_loop_cons (attempt : Z) (rest : list Z) (s : W) :
  retry_loop fn maxRetries (attempt :: rest) s =
  match fn s with
  | (Return v, s1, t) => (Return (Some v), s1, Attempt attempt :: map Inner t)
  | (Throw e, s1, t) =>
      if is_rate_limit e && (attempt <? maxRetries) then
        match retry_loop fn maxRetries rest s1 with
        | (r, s2, t2) =>
            (r, s2, (Attempt attempt :: map Inner t) ++
                    Sleep (backoff_delay attempt) :: t2)
        end
      else (Throw e, s1, Attempt attempt :: map Inner t)
  end.
Proof.
  cbn [retry_loop]. unfold try_catch, bind, emit, relabel, ret, throw.
  destruct (fn s) as [[[v | e] s1] t]; cbn.
  - now rewrite app_nil_r.
  - destruct (is_rate_limit e && (attempt <? maxRetries)).
    + destruct (retry_loop fn maxRetries rest s1) as [[r s2] t2]. reflexivity.
    + now rewrite app_nil_r.
Qed.

Lemma outcome_at_0 (s : W) : outcome_at fn s 0 = result_of (fn s).
Proof. reflexivity. Qed.

Lemma outcome_at_S (s : W) (j : nat) :
  outcome_at fn s (S j) = outcome_at fn (state_of (fn s)) j.
Proof. reflexivity. Qed.

Lemma retry_trace_1 (a : Z) (s : W) :
  retry_trace fn a s 1 = Attempt a :: map Inner (log_of (fn s)).
Proof. cbn. now rewrite app_nil_r. Qed.

Lemma retry_trace_SS (a : Z) (s : W) (m : nat) :
  retry_trace fn a s (S (S m)) =
  (Attempt a :: map Inner (log_of (fn s))) ++
  Sleep (backoff_delay a) :: retry_trace fn (a + 1) (state_of (fn s)) (S m).
Proof. reflexivity. Qed.

(** The loop stops at the first attempt that is not a retried rate-limit
    failure; [p] counts the attempts before it. *)
Lemma retry_loop_run (n : nat) :
  forall (a : Z) (s : W),
    a + Z.of_nat n = maxRetries + 1 ->
    (1 <= n)%nat ->
    exists p : nat,
      (p < n)%nat /\
      (forall j, (j < p)%nat -> rate_limited (outcome_at fn s j)) /\
      ((S p < n)%nat -> ~ rate_limited (outcome_at fn s p)) /\
      retry_loop fn maxRetries (range_from a n) s =
        (loop_result (outcome_at fn s p),
         state_after fn s (S p),
         retry_trace fn a s (S p)).
Proof.
  induction n as [| n IH]; intros a s Ha Hn; [lia |].
  cbn [range_from]. rewrite retry_loop_cons.
  destruct (fn s) as [[[v | e] s1] t] eqn:Hfn.
  - exists O. rewrite retry_trace_1, outcome_at_0. cbn [state_after].
    rewrite Hfn. repeat split; try lia.
    intros _ [e [He _]]. discriminate.
  - destruct (is_rate_limit e) eqn:Hrl; cbn [andb].
    + destruct (Z.ltb_spec a maxRetries) as [Hlt | Hge].
      * destruct (IH (a + 1) s1) as (p & Hp & Hbefore & Hstop & Hrun);
          [lia | lia |].
        rewrite Hrun. exists (S p).
        rewrite retry_trace_SS, outcome_at_S. cbn [state_after].
        rewrite Hfn. repeat split.
        -- lia.
        -- intros [| j] Hj.
           ++ exists e. rewrite outcome_at_0, Hfn. auto.
           ++ rewrite outcome_at_S, Hfn. apply Hbefore. lia.
        -- intros Hlast. apply Hstop. lia.
      * exists O. rewrite retry_trace_1, outcome_at_0. cbn [state_after].
        rewrite Hfn. repeat split; lia.
    + exists O. rewrite retry_trace_1, outcome_at_0. cbn [state_after].
      rewrite Hfn. repeat split; try lia.
      intros _ [e' [He' Hrl']]. cbn in He'. injection He' as <-. congruence.
Qed.

(** With no attempt allowed the loop runs to its end at once. *)
Lemma retry_loop_none (s : W) :
  maxRetries <= 0 -> retry_loop fn maxRetries (attempt_range maxRetries) s = (Return None, s, []).
Proof.
  intros H. unfold attempt_range.
  replace (Z.to_nat maxRetries) with O by lia. reflexivity.
Qed.

(** The helper, for at least one allowed attempt. *)
Lemma retryWithBackoff_run (s : W) :
  1 <= maxRetries ->
  exists p : nat,
    (p < Z.to_nat maxRetries)%nat /\
    (forall j, (j < p)%nat -> rate_limited (outcome_at fn s j)) /\
    ((S p < Z.to_nat maxRetries)%nat ->
       ~ rate_limited (outcome_at fn s p)) /\
    result_of (retry_loop fn maxRetries (attempt_range maxRetries) s)
      = loop_result (outcome_at fn s p) /\
    retryWithBackoff fn maxRetries s =
      (outcome_at fn s p, state_after fn s (S p),
       retry_trace fn 1 s (S p)).
Proof.
  intros Hmax.
  destruct (retry_loop_run (n := Z.to_nat maxRetries) 1 s) as
    (p & Hp & Hbefore & Hstop & Hrun); [lia | lia |].
  exists p. repeat split; auto.
  - unfold attempt_range. rewrite Hrun. reflexivity.
  - unfold retryWithBackoff, bind, attempt_range. rewrite Hrun.
    destruct (outcome_at fn s p) as [v | e]; cbn.
    + now rewrite app_nil_r.
    + reflexivity.
Qed.

(** *** What the log of a run shows *)

Lemma attempts_made_app (t1 t2 : list (wev E)) :
  attempts_made (t1 ++ t2) = (attempts_made t1 + attempts_made t2)%nat.
Proof.
  induction t1 as [| [e | k | ms] t1 IH]; cbn; auto.
Qed.

Lemma attempts_made_inner (t : list E) : attempts_made (map Inner t) = O.
Proof. induction t; cbn; auto. Qed.

Lemma attempts_made_trace (m : nat) :
  forall (a : Z) (s : W), attempts_made (retry_trace fn a s m) = m.
Proof.
  induction m as [| m IH]; intros a s; [reflexivity |].
  destruct m as [| m].
  - rewrite retry_trace_1. cbn. now rewrite attempts_made_inner.
  - rewrite retry_trace_SS, attempts_made_app. cbn [attempts_made].
    rewrite attempts_made_inner, IH. reflexivity.
Qed.

Lemma sleeps_app (t1 t2 : list (wev E)) :
  sleeps (t1 ++ t2) = sleeps t1 ++ sleeps t2.
Proof.
  induction t1 as [| [e | k | ms] t1 IH]; cbn; auto. now rewrite IH.
Qed.

Lemma sleeps_inner (t : list E) : sleeps (map Inner t) = [].
Proof. induction t; cbn; auto. Qed.

Lemma sleeps_trace (p : nat) :
  forall (a : Z) (s : W),
    sleeps (retry_trace fn a s (S p)) = map backoff_delay (range_from a p).
Proof.
  induction p as [| p IH]; intros a s.
  - rewrite retry_trace_1. cbn. now rewrite sleeps_inner.
  - rewrite retry_trace_SS, sleeps_app. cbn [sleeps].
    rewrite sleeps_inner, IH. reflexivity.
Qed.

Lemma in_attempt_inner (k : Z) (t : list E) : ~ In (Attempt k) (map Inner t).
Proof. induction t; cbn; intuition discriminate. Qed.

Lemma in_attempt_trace (m : nat) :
  forall (a : Z) (s : W) (k : Z),
    In (Attempt k) (retry_trace fn a s m) -> a <= k < a + Z.of_nat m.
Proof.
  induction m as [| m IH]; intros a s k Hin; [contradiction |].
  destruct m as [| m].
  - rewrite retry_trace_1 in Hin. destruct Hin as [Heq | Hin].
    + injection Heq as <-. lia.
    + now apply in_attempt_inner in Hin.
  - rewrite retry_trace_SS in Hin. apply in_app_or in Hin.
    destruct Hin as [[Heq | Hin] | [Heq | Hin]].
    + injection Heq as <-. lia.
    + now apply in_attempt_inner in Hin.
    + discriminate.
    + apply IH in Hin. lia.
Qed.

Lemma delay_before_inner (t : list E) (rest : list (wev E)) (k : Z) :
  delay_before (map Inner t ++ rest) k = delay_before rest k.
Proof. induction t; cbn; auto. Qed.

Lemma delay_before_trace (m : nat) :
  forall (a : Z) (s : W) (k : Z),
    a < k < a + Z.of_nat m ->
    delay_before (retry_trace fn a s m) k = Some (backoff_delay (k - 1)).
Proof.
  induction m as [| m IH]; intros a s k Hk; [lia |].
  destruct m as [| m]; [lia |].
  rewrite retry_trace_SS. cbn [app delay_before].
  rewrite delay_before_inner.
  specialize (IH (a + 1) (state_of (fn s)) k).
  destruct (retry_trace fn (a + 1) (state_of (fn s)) (S m)) as [| ev rest] eqn:Htr;
    [discriminate |].
  assert (Hev : ev = Attempt (a + 1)).
  { destruct m; [rewrite retry_trace_1 in Htr | rewrite retry_trace_SS in Htr];
      cbn in Htr; congruence. }
  subst ev. cbn [delay_before].
  destruct (Z.eqb_spec (a + 1) k) as [<- | Hne].
  - do 2 f_equal. lia.
  - apply IH. lia.
Qed.

(** The attempt at which the loop stops is determined by the outcomes. *)
Lemma stop_unique (s : W) (n p q : nat) :
  (forall j, (j < p)%nat -> rate_limited (outcome_at fn s j)) ->
  ((S p < n)%nat -> ~ rate_limited (outcome_at fn s p)) ->
  (q < n)%nat ->
  (forall j, (j < q)%nat -> rate_limited (outcome_at fn s j)) ->
  ~ rate_limited (outcome_at fn s q) ->
  p = q.
Proof.
  intros Hp Hstop Hq Hbefore Hlast.
  destruct (Nat.lt_trichotomy p q) as [Hlt | [Heq | Hgt]]; auto.
  - exfalso. apply Hstop; [lia | apply Hbefore; lia].
  - exfalso. apply Hlast, Hp. lia.
Qed.

Lemma not_rate_limited_return (v : A) : ~ rate_limited (@Return A v).
Proof. intros [e [He _]]. discriminate. Qed.

Lemma not_rate_limited_throw (e : thrown) :
  is_rate_limit e = false -> ~ rate_limited (@Throw A e).
Proof. intros H [e' [He' Hrl]]. injection He' as <-. congruence. Qed.

End Run.

(** *** The helper for any number of attempts *)

Section Number.
Context {W E A : Type}.
Variable fn : M W E A.

(** The retry guard holds of exactly the [Error] objects whose [status]
    is the number 429. *)
Lemma is_rate_limit_429 (e : thrown) :
  is_rate_limit e = true <->
  exists name message cause,
    e = ErrorObj name message (Some (VNum 429)) cause.
Proof.
  unfold is_rate_limit, has_status. split.
  - destruct e as [name message [[| z | str] |] cause | str status];
      try discriminate.
    intros H. apply Z.eqb_eq in H. subst z. eauto.
  - intros (name & message & cause & ->). reflexivity.
Qed.

Lemma rate_limited_429 (r : outcome A) : rate_limited r <-> throws_429 r.
Proof.
  unfold rate_limited, throws_429. split.
  - intros (e & -> & H). apply is_rate_limit_429 in H.
    destruct H as (name & message & cause & ->). eauto.
  - intros (name & message & cause & ->).
    eexists. split; reflexivity.
Qed.

Lemma not_429_is_rate_limit (e : thrown) :
  not_429 e <-> is_rate_limit e = false.
Proof.
  unfold not_429. split.
  - intros H. destruct (is_rate_limit e) eqn:Hrl; auto.
    apply is_rate_limit_429 in Hrl.
    destruct Hrl as (name & message & cause & ->).
    exfalso. eapply H. reflexivity.
  - intros H name message cause ->. discriminate H.
Qed.

(** At a whole number the comparisons and the values of [attempt] are
    those of the integers. *)
Lemma attempt_lt_whole (a m : Z) : attempt_lt a (whole m) = (a <? m).
Proof.
  unfold attempt_lt, whole, QArith_base.Qle_bool, QArith_base.inject_Z.
  cbn. rewrite !Z.mul_1_r. rewrite Z.ltb_antisym. reflexivity.
Qed.

Lemma attempt_values_whole (m : Z) : attempt_values (whole m) = attempt_range m.
Proof.
  unfold attempt_values, attempt_range, whole.
  now rewrite Qround.Qfloor_Z.
Qed.

(** Below the integer part of [maxRetries] the guard of a retry holds, and
    it holds at most up to the integer part. *)
Lemma attempt_lt_below_floor (a : Z) (m : number) :
  a < Qround.Qfloor m -> attempt_lt a m = true.
Proof.
  intros H. unfold attempt_lt.
  destruct (QArith_base.Qle_bool m (QArith_base.inject_Z a)) eqn:Hle;
    [| reflexivity].
  apply QArith_base.Qle_bool_iff in Hle. apply Qround.Qfloor_resp_le in Hle.
  rewrite Qround.Qfloor_Z in Hle. lia.
Qed.

Lemma attempt_lt_at_most_floor (a : Z) (m : number) :
  attempt_lt a m = true -> a <= Qround.Qfloor m.
Proof.
  unfold attempt_lt. intros H.
  destruct (QArith_base.Qle_bool m (QArith_base.inject_Z a)) eqn:Hle;
    [discriminate |].
  destruct (Z.le_gt_cases a (Qround.Qfloor m)) as [| Hgt]; auto.
  exfalso.
  assert (Hq : QArith_base.Qle m (QArith_base.inject_Z a)).
  { apply QArith_base.Qlt_le_weak.
    eapply QArith_base.Qlt_le_trans; [apply Qround.Qlt_floor |].
    rewrite <- QArith_base.Zle_Qle. lia. }
  apply QArith_base.Qle_bool_iff in Hq. congruence.
Qed.

(** The values of [attempt] are the whole numbers from 1 on that pass the
    condition [attempt <= maxRetries] of the loop. *)
Lemma in_attempt_values (a : Z) (m : number) :
  In a (attempt_values m) <-> 1 <= a /\ attempt_le a m = true.
Proof.
  unfold attempt_values, attempt_le. rewrite in_range_from.
  rewrite QArith_base.Qle_bool_iff. split.
  - intros [Hlo Hhi]. split; [exact Hlo |].
    eapply QArith_base.Qle_trans; [| apply Qround.Qfloor_le].
    rewrite <- QArith_base.Zle_Qle. lia.
  - intros [Hlo Hle]. split; [exact Hlo |].
    apply Qround.Qfloor_resp_le in Hle. rewrite Qround.Qfloor_Z in Hle. lia.
Qed.


Variable maxRetries : number.

(** One iteration of the loop, by the outcome of the call. *)
Lemma retry_loop_number_cons (attempt : Z) (rest : list Z) (s : W) :
  retry_loop_number fn maxRetries (attempt :: rest) s =
  match fn s with
  | (Return v, s1, t) => (Return (Some v), s1, Attempt attempt :: map Inner t)
  | (Throw e, s1, t) =>
      if is_rate_limit e && attempt_lt attempt maxRetries then
        match retry_loop_number fn maxRetries rest s1 with
        | (r, s2, t2) =>
            (r, s2, (Attempt attempt :: map Inner t) ++
                    Sleep (backoff_delay attempt) :: t2)
        end
      else (Throw e, s1, Attempt attempt :: map Inner t)
  end.
Proof.
  cbn [retry_loop_number]. unfold try_catch, bind, emit, relabel, ret, throw.
  destruct (fn s) as [[[v | e] s1] t]; cbn.
  - now rewrite app_nil_r.
  - destruct (is_rate_limit e && attempt_lt attempt maxRetries).
    + destruct (retry_loop_number fn maxRetries rest s1) as [[r s2] t2].
      reflexivity.
    + now rewrite app_nil_r.
Qed.

(** The loop over [n] values of [attempt] either stops at the first
    attempt that is not retried, or retries all [n] and runs to its end. *)
Lemma retry_loop_number_run (n : nat) :
  forall (a : Z) (s : W),
    (exists p : nat,
       (p < n)%nat /\
       (forall j, (j < p)%nat -> retried fn maxRetries a s j) /\
       ~ retried fn maxRetries a s p /\
       retry_loop_number fn maxRetries (range_from a n) s =
         (loop_result (outcome_at fn s p),
          state_after fn s (S p),
          retry_trace fn a s (S p)))
    \/
    ((forall j, (j < n)%nat -> retried fn maxRetries a s j) /\
     retry_loop_number fn maxRetries (range_from a n) s =
       (Return None, state_after fn s n, retry_trace_all fn a s n)).
Proof.
  unfold retried.
  induction n as [| n IH]; intros a s.
  - right. split; [intros j Hj; lia | reflexivity].
  - cbn [range_from]. rewrite retry_loop_number_cons.
    destruct (fn s) as [[[v | e] s1] t] eqn:Hfn.
    + left. exists O. rewrite retry_trace_1, outcome_at_0. cbn [state_after].
      rewrite Hfn. repeat split; try lia.
      intros [[e [He _]] _]. discriminate.
    + destruct (is_rate_limit e && attempt_lt a maxRetries) eqn:Hguard.
      * apply andb_true_iff in Hguard. destruct Hguard as [Hrl Hlt].
        assert (Hfirst : forall j, (j < 1)%nat ->
                  rate_limited (outcome_at fn s j) /\
                  attempt_lt (a + Z.of_nat j) maxRetries = true).
        { intros j Hj. replace j with O by lia.
          rewrite outcome_at_0, Hfn, Z.add_0_r. split; auto.
          exists e. auto. }
        destruct (IH (a + 1) s1) as
          [(p & Hp & Hbefore & Hstop & Hrun) | (Hall & Hrun)]; rewrite Hrun.
        -- left. exists (S p).
           rewrite retry_trace_SS, outcome_at_S. cbn [state_after].
           rewrite Hfn. cbn [state_of log_of fst snd]. repeat split.
           ++ lia.
           ++ destruct j as [| j]; [apply Hfirst; lia |].
              rewrite outcome_at_S, Hfn. apply Hbefore. lia.
           ++ destruct j as [| j]; [apply Hfirst; lia |].
              replace (a + Z.of_nat (S j)) with (a + 1 + Z.of_nat j) by lia.
              apply Hbefore. lia.
           ++ replace (a + Z.of_nat (S p)) with (a + 1 + Z.of_nat p) by lia.
              exact Hstop.
        -- right. cbn [retry_trace_all state_after].
           rewrite Hfn. cbn [state_of log_of fst snd]. split; [| reflexivity].
           intros [| j] Hj; [apply Hfirst; lia |].
           rewrite outcome_at_S, Hfn.
           replace (a + Z.of_nat (S j)) with (a + 1 + Z.of_nat j) by lia.
           apply Hall. lia.
      * left. exists O. rewrite retry_trace_1, outcome_at_0. cbn [state_after].
        rewrite Hfn, Z.add_0_r. repeat split; try lia.
        intros [[e' [He' Hrl]] Hlt]. cbn in He'. injection He' as <-.
        rewrite Hrl, Hlt in Hguard. discriminate.
Qed.

(** The helper, for any [maxRetries]: it settles with the outcome of the
    first attempt that is not retried, or, when all attempts are retried,
    with the error of the trailing [throw]. *)
Lemma retryWithBackoff_number_run (s : W) :
  (exists p : nat,
     (p < Z.to_nat (Qround.Qfloor maxRetries))%nat /\
     (forall j, (j < p)%nat -> rate_limited (outcome_at fn s j)) /\
     ((S p < Z.to_nat (Qround.Qfloor maxRetries))%nat ->
        ~ rate_limited (outcome_at fn s p)) /\
     retryWithBackoff_number fn maxRetries s =
       (outcome_at fn s p, state_after fn s (S p),
        retry_trace fn 1 s (S p)))
  \/
  ((forall j, (j < Z.to_nat (Qround.Qfloor maxRetries))%nat ->
      rate_limited (outcome_at fn s j)) /\
   (forall j, (j < Z.to_nat (Qround.Qfloor maxRetries))%nat ->
      attempt_lt (1 + Z.of_nat j) maxRetries = true) /\
   retryWithBackoff_number fn maxRetries s =
     (Throw (new_Error "Max retries exceeded"),
      state_after fn s (Z.to_nat (Qround.Qfloor maxRetries)),
      retry_trace_all fn 1 s (Z.to_nat (Qround.Qfloor maxRetries)))).
Proof.
  unfold retryWithBackoff_number, bind, attempt_values.
  destruct (retry_loop_number_run (Z.to_nat (Qround.Qfloor maxRetries)) 1 s)
    as [(p & Hp & Hbefore & Hstop & Hrun) | (Hall & Hrun)]; rewrite Hrun.
  - left. exists p. repeat split; auto.
    + intros j Hj. now apply Hbefore.
    + intros Hlast Hrl. apply Hstop. split; auto.
      apply attempt_lt_below_floor. lia.
    + destruct (outcome_at fn s p) as [v | e]; cbn.
      * now rewrite app_nil_r.
      * reflexivity.
  - right. repeat split.
    + intros j Hj. now apply Hall.
    + intros j Hj. now apply Hall.
    + cbn. now rewrite app_nil_r.
Qed.

(** *** What the log of a run to the end of the loop shows *)

Lemma attempts_made_trace_all (m : nat) :
  forall (a : Z) (s : W), attempts_made (retry_trace_all fn a s m) = m.
Proof.
  induction m as [| m IH]; intros a s; [reflexivity |].
  cbn [retry_trace_all]. rewrite attempts_made_app. cbn [attempts_made].
  rewrite attempts_made_inner, IH. reflexivity.
Qed.


End Number.

(** At a whole number [maxRetries] the helper is [retryWithBackoff]. *)
Lemma retry_loop_number_whole {W E A : Type} (fn : M W E A) (m : Z)
  (attempts : list Z) :
  forall s : W,
    retry_loop_number fn (whole m) attempts s = retry_loop fn m attempts s.
Proof.
  induction attempts as [| attempt rest IH]; intros s; [reflexivity |].
  rewrite retry_loop_number_cons, retry_loop_cons, attempt_lt_whole.
  destruct (fn s) as [[[v | e] s1] t]; [reflexivity |].
  now rewrite IH.
Qed.

Lemma retryWithBackoff_number_whole {W E A : Type} (fn : M W E A) (m : Z)
  (s : W) :
  retryWithBackoff_number fn (whole m) s = retryWithBackoff fn m s.
Proof.
  unfold retryWithBackoff_number, retryWithBackoff, bind.
  now rewrite attempt_values_whole, retry_loop_number_whole.
Qed.

(** C5.  For every operation and every number [maxRetries], the helper
    calls the operation at most [maxRetries] times; a further attempt is
    made only after an attempt that threw an [Error] whose [status] is
    429; the first failure that is anything else is rethrown at once, with
    no further call; and the value of the first successful attempt, up to
    and including the last allowed one, is returned. *)
Theorem retry_only_on_rate_limit {W E A : Type}
  (fn : M W E A) (maxRetries : number) (s : W) :
  let run := retryWithBackoff_number fn maxRetries s in
  let allowed := Z.to_nat (Qround.Qfloor maxRetries) in
  (attempts_made (log_of run) <= allowed)%nat /\
  (forall j, (S j < attempts_made (log_of run))%nat ->
     throws_429 (outcome_at fn s j)) /\
  (forall p e,
     (p < allowed)%nat ->
     (forall j, (j < p)%nat -> throws_429 (outcome_at fn s j)) ->
     outcome_at fn s p = Throw e ->
     not_429 e ->
     result_of run = Throw e /\ attempts_made (log_of run) = S p) /\
  (forall p v,
     (p < allowed)%nat ->
     (forall j, (j < p)%nat -> throws_429 (outcome_at fn s j)) ->
     outcome_at fn s p = Return v ->
     result_of run = Return v /\ attempts_made (log_of run) = S p).
Proof.
  intros run allowed. subst run allowed.
  destruct (retryWithBackoff_number_run fn maxRetries s) as
    [(p & Hp & Hbefore & Hstop & Hrun) | (Hall & _ & Hrun)];
    rewrite Hrun; cbn [log_of result_of fst snd].
  - rewrite attempts_made_trace.
    split; [lia |].
    split; [intros j Hj; apply rate_limited_429, Hbefore; lia |].
    split.
    + intros q e Hq Hbefore_q Hout Hother.
      assert (p = q) as ->.
      { eapply stop_unique; eauto.
        - intros j Hj. now apply rate_limited_429, Hbefore_q.
        - rewrite Hout. now apply not_rate_limited_throw, not_429_is_rate_limit. }
      now rewrite Hout.
    + intros q v Hq Hbefore_q Hout.
      assert (p = q) as ->.
      { eapply stop_unique; eauto.
        - intros j Hj. now apply rate_limited_429, Hbefore_q.
        - rewrite Hout. apply not_rate_limited_return. }
      now rewrite Hout.
  - rewrite attempts_made_trace_all.
    split; [lia |].
    split; [intros j Hj; apply rate_limited_429, Hall; lia |].
    split.
    + intros q e Hq _ Hout Hother. exfalso.
      apply (@not_rate_limited_throw A e);
        [now apply not_429_is_rate_limit | rewrite <- Hout; now apply Hall].
    + intros q v Hq _ Hout. exfalso.
      apply (@not_rate_limited_return A v). rewrite <- Hout. now apply Hall.
Qed.

(** C5, at concrete runs with [maxRetries = 3]: two failures with status
    429 and then a value, and the value is returned after three calls; a
    failure with status 429 and then one with status 401, and the latter is
    rethrown after two calls. *)
Lemma retry_only_on_rate_limit_witness :
  (result_of (retryWithBackoff_number (@scripted string) (whole 3)
     [Throw too_many_requests; Throw too_many_requests; Return "ok"])
     = Return "ok"
   /\ attempts_made (log_of (retryWithBackoff_number (@scripted string)
        (whole 3)
        [Throw too_many_requests; Throw too_many_requests; Return "ok"]))
      = 3%nat)
  /\
  (result_of (retryWithBackoff_number (@scripted string) (whole 3)
     [Throw too_many_requests; Throw unauthorized; Return "ok"])
     = Throw unauthorized
   /\ attempts_made (log_of (retryWithBackoff_number (@scripted string)
        (whole 3)
        [Throw too_many_requests; Throw unauthorized; Return "ok"]))
      = 2%nat).
Proof.
  split.
  - apply (retry_only_on_rate_limit (@scripted string) (whole 3)
      [Throw too_many_requests; Throw too_many_requests; Return "ok"]).
    + cbn. lia.
    + intros [| [| j]] Hj; [| | lia];
        exists "Error", "Too Many Requests", None; reflexivity.
    + reflexivity.
  - apply (retry_only_on_rate_limit (@scripted string) (whole 3)
      [Throw too_many_requests; Throw unauthorized; Return "ok"]).
    + cbn. lia.
    + intros [| j] Hj; [| lia].
      exists "Error", "Too Many Requests", None; reflexivity.
    + reflexivity.
    + intros name message cause H. discriminate H.
Defined.

(** C10 as stated fails: [maxRetries] is a number, and for
    [maxRetries = 2.5] with two calls rejected with status 429 the second
    attempt passes the guard [2 < 2.5], is followed by a wait, and the loop
    ends at [3 <= 2.5]: the helper throws the trailing
    [Error("Max retries exceeded")], which no call of the operation threw. *)
Lemma retry_fallback_reached :
  attempt_le 1 (QArith_base.Qmake 5 2) = true
  /\ retryWithBackoff_number (@scripted string) (QArith_base.Qmake 5 2)
       [Throw too_many_requests; Throw too_many_requests]
     = (Throw (new_Error "Max retries exceeded"), [],
        [Attempt 1; Sleep 2000; Attempt 2; Sleep 4000])
  /\ (forall j : nat,
        outcome_at (@scripted string)
          [Throw too_many_requests; Throw too_many_requests] j
        <> Throw (new_Error "Max retries exceeded")).
Proof.
  split; [reflexivity | split; [reflexivity |]].
  assert (Hempty : forall j, outcome_at (@scripted string) [] j
                             = Throw (new_Error "script exhausted")).
  { induction j as [| j IH]; [reflexivity | exact IH]. }
  intros [| [| j]]; try discriminate.
  change (outcome_at (@scripted string) [] j
          <> Throw (new_Error "Max retries exceeded")).
  rewrite Hempty. discriminate.
Qed.

(** C10, amended.  For a whole number [maxRetries >= 1] the loop never
    runs to its end, so the trailing [throw new Error("Max retries
    exceeded")] is not reached: the helper settles with the outcome of one
    of the calls of the operation, a value it returned or the very error
    it threw.  In particular the error of the last allowed attempt is
    rethrown as it is, status 429 or not. *)
Theorem retry_fallback_unreachable {W E A : Type}
  (fn : M W E A) (maxRetries : Z) (s : W) (Hmax : 1 <= maxRetries) :
  let run := retryWithBackoff_number fn (whole maxRetries) s in
  result_of (retry_loop_number fn (whole maxRetries)
               (attempt_values (whole maxRetries)) s)
    <> Return None /\
  (exists p : nat,
     (p < Z.to_nat maxRetries)%nat /\
     result_of run = outcome_at fn s p /\
     state_of run = state_after fn s (S p)) /\
  (forall e,
     (forall j, (j < Z.to_nat maxRetries - 1)%nat ->
        throws_429 (outcome_at fn s j)) ->
     outcome_at fn s (Z.to_nat maxRetries - 1) = Throw e ->
     result_of run = Throw e).
Proof.
  intros run. subst run.
  rewrite retryWithBackoff_number_whole, attempt_values_whole,
    retry_loop_number_whole.
  destruct (retryWithBackoff_run fn s Hmax) as
    (p & Hp & Hbefore & Hstop & Hloop & Hrun).
  split; [| split].
  - rewrite Hloop. destruct (outcome_at fn s p); discriminate.
  - exists p. rewrite Hrun. auto.
  - intros e Hall Hlast. rewrite Hrun. cbn [result_of fst].
    destruct (Nat.eq_dec p (Z.to_nat maxRetries - 1)) as [-> | Hne]; auto.
    exfalso. apply Hstop; [lia | apply rate_limited_429, Hall; lia].
Qed.

(** C10, amended, at a concrete run: three failures with status 429 and
    [maxRetries = 3] end in the provider's own error. *)
Lemma retry_fallback_unreachable_witness :
  result_of (retryWithBackoff_number (@scripted string) (whole 3)
    [Throw too_many_requests; Throw too_many_requests; Throw too_many_requests])
    = Throw too_many_requests.
Proof.
  refine (proj2 (proj2 (retry_fallback_unreachable (@scripted string)
    (maxRetries := 3)
    [Throw too_many_requests; Throw too_many_requests; Throw too_many_requests]
    _)) too_many_requests _ _).
  - lia.
  - intros [| [| j]] Hj; [| | cbn in Hj; lia];
      exists "Error", "Too Many Requests", None; reflexivity.
  - reflexivity.
Defined.

(** C4 as stated fails: after three rate-limit failures out of three the
    helper throws the provider's error itself; no wrapping error with that
    error as its cause is thrown. *)
Lemma retry_exhausted_not_wrapped :
  result_of (retryWithBackoff (@scripted string) 3
    [Throw too_many_requests; Throw too_many_requests; Throw too_many_requests])
    = Throw too_many_requests
  /\ ~ retries_exhausted_with_cause
        (result_of (retryWithBackoff (@scripted string) 3
           [Throw too_many_requests; Throw too_many_requests;
            Throw too_many_requests]))
        too_many_requests.
Proof.
  split; [reflexivity |].
  intros [w [Hw Hcause]]. cbn in Hw. injection Hw as <-. discriminate.
Qed.

(** C4, amended.  After [maxRetries] consecutive rate-limit failures the
    helper has called the operation exactly [maxRetries] times and fails by
    rethrowing the last underlying error itself, unwrapped. *)
Theorem retry_exhausted_rethrows_last {W E A : Type}
  (fn : M W E A) (maxRetries : Z) (s : W)
  (Hmax : 1 <= maxRetries)
  (Hall : forall j, (j < Z.to_nat maxRetries)%nat ->
            rate_limited (outcome_at fn s j)) :
  exists e,
    outcome_at fn s (Z.to_nat maxRetries - 1) = Throw e /\
    is_rate_limit e = true /\
    result_of (retryWithBackoff fn maxRetries s) = Throw e /\
    attempts_made (log_of (retryWithBackoff fn maxRetries s))
      = Z.to_nat maxRetries.
Proof.
  destruct (retryWithBackoff_run fn s Hmax) as
    (p & Hp & Hbefore & Hstop & _ & Hrun).
  assert (Hlast : p = (Z.to_nat maxRetries - 1)%nat).
  { destruct (Nat.eq_dec p (Z.to_nat maxRetries - 1)) as [-> | Hne]; auto.
    exfalso. apply Hstop; [lia | apply Hall; lia]. }
  destruct (Hall p Hp) as (e & He & Hrl).
  exists e. rewrite Hrun. cbn [result_of log_of fst snd].
  rewrite attempts_made_trace. subst p. repeat split; auto. lia.
Qed.

(** C4, amended, at a concrete run. *)
Lemma retry_exhausted_rethrows_last_witness :
  exists e,
    outcome_at (@scripted string)
      [Throw too_many_requests; Throw too_many_requests; Throw too_many_requests]
      (Z.to_nat 3 - 1) = Throw e /\
    is_rate_limit e = true /\
    result_of (retryWithBackoff (@scripted string) 3
      [Throw too_many_requests; Throw too_many_requests; Throw too_many_requests])
      = Throw e /\
    attempts_made (log_of (retryWithBackoff (@scripted string) 3
      [Throw too_many_requests; Throw too_many_requests; Throw too_many_requests]))
      = Z.to_nat 3.
Proof.
  apply retry_exhausted_rethrows_last.
  - lia.
  - intros [| [| [| j]]] Hj; [| | | cbn in Hj; lia];
      exists too_many_requests; split; reflexivity.
Defined.

(** C3 as stated fails: with three rate-limit failures out of three, the
    wait before attempt 2 is 2000 ms, not [min(1000 * 2^2, 30000)] = 4000. *)
Lemma retry_delay_not_two_to_the_k :
  In (Attempt 2) (log_of (retryWithBackoff (@scripted string) 3
    [Throw too_many_requests; Throw too_many_requests; Throw too_many_requests]))
  /\ delay_before (log_of (retryWithBackoff (@scripted string) 3
    [Throw too_many_requests; Throw too_many_requests; Throw too_many_requests]))
    2 = Some 2000
  /\ delay_before (log_of (retryWithBackoff (@scripted string) 3
    [Throw too_many_requests; Throw too_many_requests; Throw too_many_requests]))
    2 <> Some (Z.min (1000 * 2 ^ 2) 30000).
Proof.
  split; [| split].
  - vm_compute. auto 10.
  - reflexivity.
  - vm_compute. discriminate.
Qed.

(** C3, amended.  With [maxRetries = 3], the wait before attempt [k]
    ([k >= 2]) is [min(1000 * 2^(k-1), 30000)] ms: 2000 ms before attempt 2
    and 4000 ms before attempt 3.  When all three attempts fail with
    rate-limit errors the helper has waited 6000 ms in all, which is at
    least 3000 ms and at most the 30000 ms cap. *)
Theorem retry_backoff_schedule {W E A : Type} (fn : M W E A) (s : W) :
  (forall k,
     2 <= k ->
     In (Attempt k) (log_of (retryWithBackoff fn 3 s)) ->
     delay_before (log_of (retryWithBackoff fn 3 s)) k
       = Some (Z.min (1000 * 2 ^ (k - 1)) 30000)) /\
  ((forall j, (j < 3)%nat -> rate_limited (outcome_at fn s j)) ->
   sleeps (log_of (retryWithBackoff fn 3 s)) = [2000; 4000] /\
   total_wait (log_of (retryWithBackoff fn 3 s)) = 6000 /\
   3000 <= total_wait (log_of (retryWithBackoff fn 3 s)) <= 30000).
Proof.
  destruct (@retryWithBackoff_run W E A fn 3 s) as
    (p & Hp & Hbefore & Hstop & _ & Hrun); [lia |].
  rewrite Hrun. cbn [log_of snd]. split.
  - intros k Hk Hin. apply in_attempt_trace in Hin.
    rewrite delay_before_trace by lia. reflexivity.
  - intros Hall.
    assert (p = 2%nat) as ->.
    { destruct (Nat.eq_dec p 2) as [-> | Hne]; auto.
      exfalso. apply Hstop; [lia | apply Hall; lia]. }
    unfold total_wait. rewrite sleeps_trace. cbn. repeat split; lia.
Qed.

(** C3, amended, at a concrete run of three rate-limit failures. *)
Lemma retry_backoff_schedule_witness :
  delay_before (log_of (retryWithBackoff (@scripted string) 3
    [Throw too_many_requests; Throw too_many_requests; Throw too_many_requests]))
    3 = Some (Z.min (1000 * 2 ^ (3 - 1)) 30000)
  /\ total_wait (log_of (retryWithBackoff (@scripted string) 3
    [Throw too_many_requests; Throw too_many_requests; Throw too_many_requests]))
    = 6000.
Proof.
  split.
  - apply (proj1 (retry_backoff_schedule (@scripted string)
      [Throw too_many_requests; Throw too_many_requests;
       Throw too_many_requests])).
    + lia.
    + vm_compute. auto 10.
  - apply (proj2 (retry_backoff_schedule (@scripted string)
      [Throw too_many_requests; Throw too_many_requests;
       Throw too_many_requests])).
    intros [| [| [| j]]] Hj; [| | | lia];
      exists too_many_requests; split; reflexivity.
Defined.

(** With no attempt allowed ([maxRetries = 0]) the trailing throw is what
    the helper does. *)
Example retry_zero_attempts :
  retryWithBackoff (@scripted string) 0 [Return "ok"]
  = (Throw (new_Error "Max retries exceeded"), [Return "ok"], []).
Proof. reflexivity. Qed.

End RetryFacts.

(** ** The inventory tool handler *)

Module LookupFacts.

Section Handler.
Context {W : Type}.
Variable P : providers W.

(** The handler, call by call. *)
Lemma itemLookupTool_unfold (query : string) (n : Z) (s : W) :
  itemLookupTool P query n s =
  match countDocuments P s with
  | (Throw e, s1) =>
      (Return (failure_result query e), s1, [CountDocuments (Throw e)])
  | (Return totalCount, s1) =>
      if totalCount =? 0 then
        (Return empty_inventory_result, s1,
         [CountDocuments (Return totalCount)])
      else
        match find P FAll 3 s1 with
        | (Throw e, s2) =>
            (Return (failure_result query e), s2,
             [CountDocuments (Return totalCount); Find FAll 3 (Throw e)])
        | (Return sampleDocs, s2) =>
            match newVectorStore P s2 with
            | (Throw e, s3) =>
                (Return (failure_result query e), s3,
                 [CountDocuments (Return totalCount);
                  Find FAll 3 (Return sampleDocs);
                  NewVectorStore (Throw e)])
            | (Return vectorStore, s3) =>
                match similaritySearchWithScore P query n s3 with
                | (Throw e, s4) =>
                    (Return (failure_result query e), s4,
                     [CountDocuments (Return totalCount);
                      Find FAll 3 (Return sampleDocs);
                      NewVectorStore (Return vectorStore);
                      SimilaritySearch query n (Throw e)])
                | (Return result, s4) =>
                    if Z.of_nat (List.length result) =? 0 then
                      match find P (text_filter query) n s4 with
                      | (Throw e, s5) =>
                          (Return (failure_result query e), s5,
                           [CountDocuments (Return totalCount);
                            Find FAll 3 (Return sampleDocs);
                            NewVectorStore (Return vectorStore);
                            SimilaritySearch query n (Return result);
                            Find (text_filter query) n (Throw e)])
                      | (Return textResult, s5) =>
                          (Return (text_result query textResult), s5,
                           [CountDocuments (Return totalCount);
                            Find FAll 3 (Return sampleDocs);
                            NewVectorStore (Return vectorStore);
                            SimilaritySearch query n (Return result);
                            Find (text_filter query) n (Return textResult)])
                      end
                    else
                      (Return (vector_result query result), s4,
                       [CountDocuments (Return totalCount);
                        Find FAll 3 (Return sampleDocs);
                        NewVectorStore (Return vectorStore);
                        SimilaritySearch query n (Return result)])
                end
            end
        end
  end.
Proof.
  unfold itemLookupTool, try_catch, bind, call, ret.
  destruct (countDocuments P s) as [[totalCount | e] s1]; [| reflexivity].
  destruct (totalCount =? 0); [reflexivity |].
  destruct (find P FAll 3 s1) as [[sampleDocs | e] s2]; [| reflexivity].
  destruct (newVectorStore P s2) as [[vectorStore | e] s3]; [| reflexivity].
  destruct (similaritySearchWithScore P query n s3) as [[result | e] s4];
    [| reflexivity].
  destruct (Z.of_nat (List.length result) =? 0); [| reflexivity].
  destruct (find P (text_filter query) n s4) as [[textResult | e] s5];
    reflexivity.
Qed.

End Handler.

(** Split a run of the handler into its cases. *)
Ltac lookup_cases P query n s :=
  rewrite !(itemLookupTool_unfold P query n s);
  destruct (countDocuments P s) as [[?totalCount | ?e] ?s1] eqn:?Hcount;
  [ destruct (Z.eqb_spec totalCount 0) as [?Hzero | ?Hnonzero];
    [ | destruct (find P FAll 3 s1) as [[?sampleDocs | ?e] ?s2] eqn:?Hsample;
        [ destruct (newVectorStore P s2) as [[?vectorStore | ?e] ?s3] eqn:?Hstore;
          [ destruct (similaritySearchWithScore P query n s3)
              as [[?result | ?e] ?s4] eqn:?Hsim;
            [ destruct (Z.eqb_spec (Z.of_nat (List.length result)) 0)
                as [?Hnone | ?Hsome];
              [ destruct (find P (text_filter query) n s4)
                  as [[?textResult | ?e] ?s5] eqn:?Htext | ]
            | ]
          | ]
        | ] ]
  | ].

(** An entry claimed to be in an explicit log that is not there. *)
Ltac absurd_in H :=
  cbn in H;
  repeat (destruct H as [H | H]; [congruence |]);
  contradiction.

(** A log claimed free of failures that shows one. *)
Ltac absurd_ok H :=
  apply Forall_forall in H;
  repeat match goal with
         | F : Forall _ (_ :: _) |- _ => inversion F; clear F; subst
         end;
  cbn in *; congruence.

Lemma length_zero_nil {X : Type} (l : list X) :
  Z.of_nat (List.length l) = 0 -> l = [].
Proof. destruct l; cbn; [auto | lia]. Qed.

(** The two normal ways out of the handler. *)
Lemma lookup_never_failing_shape {W : Type} (P : providers W)
  (query : string) (n : Z) (s : W) :
  exists j,
    result_of (itemLookupTool P query n s) = Return j /\
    (In (CountDocuments (Return 0)) (log_of (itemLookupTool P query n s)) ->
     empty_inventory_shape j /\
     forall ev, In ev (log_of (itemLookupTool P query n s)) ->
                is_search ev = false) /\
    (~ In (CountDocuments (Return 0)) (log_of (itemLookupTool P query n s)) ->
     (forall ev, In ev (log_of (itemLookupTool P query n s)) ->
                 failure_of ev = None) ->
     search_result_shape j).
Proof.
  lookup_cases P query n s; cbn [result_of log_of fst snd];
    eexists; (split; [reflexivity |]); split.
  (* the collection is reported empty *)
  - intros _. subst totalCount. split.
    + split; [eexists |]; reflexivity.
    + intros ev [<- | []]. reflexivity.
  - intros Hnot. exfalso. apply Hnot. subst totalCount. cbn. auto.
  (* text search *)
  - intros Hin. exfalso. absurd_in Hin.
  - intros _ _. split; [right; reflexivity |].
    exists textResult. split; reflexivity.
  - intros Hin. exfalso. absurd_in Hin.
  - intros _ Hok. exfalso. absurd_ok Hok.
  (* similarity search *)
  - intros Hin. exfalso. absurd_in Hin.
  - intros _ _. split; [left; reflexivity |].
    exists (map scored result). cbn. rewrite length_map. split; reflexivity.
  (* a failing call *)
  - intros Hin. exfalso. absurd_in Hin.
  - intros _ Hok. exfalso. absurd_ok Hok.
  - intros Hin. exfalso. absurd_in Hin.
  - intros _ Hok. exfalso. absurd_ok Hok.
  - intros Hin. exfalso. absurd_in Hin.
  - intros _ Hok. exfalso. absurd_ok Hok.
  - intros Hin. exfalso. absurd_in Hin.
  - intros _ Hok. exfalso. absurd_ok Hok.
Qed.

(** The handler always returns, and a failed call decides what. *)
Lemma lookup_failure_result {W : Type} (P : providers W)
  (query : string) (n : Z) (s : W) :
  exists j,
    result_of (itemLookupTool P query n s) = Return j /\
    forall ev e,
      In ev (log_of (itemLookupTool P query n s)) ->
      failure_of ev = Some e ->
      j = failure_result query e.
Proof.
  lookup_cases P query n s; cbn [result_of log_of fst snd];
    eexists; (split; [reflexivity |]);
    intros ev err Hin Hfail; cbn in Hin;
    repeat (destruct Hin as [<- | Hin]; [try discriminate |]);
    try contradiction;
    injection Hfail as <-; reflexivity.
Qed.


(** C6.  Whatever the collaborators do, the handler returns a value and
    never throws; and when one of its calls fails, with any thrown value,
    the value returned is the structured error result: an [error] field,
    the message of the failure under [details], and the query. *)
Theorem lookup_never_throws {W : Type} (P : providers W)
  (query : string) (n : Z) (s : W) :
  exists j,
    result_of (itemLookupTool P query n s) = Return j /\
    forall ev e,
      In ev (log_of (itemLookupTool P query n s)) ->
      failure_of ev = Some e ->
      j = failure_result query e /\ error_result_shape j (error_text e).
Proof.
  destruct (lookup_failure_result P query n s) as (j & Hj & Hfail).
  exists j. split; [exact Hj |].
  intros ev e Hin He. rewrite (Hfail ev e Hin He).
  split; [reflexivity |]. split; [eexists |]; reflexivity.
Qed.

(** C6, at a concrete run: the similarity search fails with a connection
    error and the handler returns the error result with its message. *)
Lemma lookup_never_throws_witness :
  exists j,
    result_of (itemLookupTool shop "oak" 10 search_down_world) = Return j /\
    error_result_shape j "connection reset".
Proof.
  destruct (lookup_never_throws shop "oak" 10 search_down_world)
    as (j & Hj & Hfail).
  exists j. split; [exact Hj |].
  apply (Hfail (SimilaritySearch "oak" 10
                  (Throw (new_Error "connection reset")))
               (new_Error "connection reset")).
  - vm_compute. auto 10.
  - reflexivity.
Defined.

(** C1 as stated fails: the query is not empty and the collection holds
    two items, yet the result has neither a [searchType] nor a [count],
    because the similarity search failed. *)
Lemma lookup_failure_has_no_search_type :
  "oak" <> "" /\
  In (CountDocuments (Return 2))
     (log_of (itemLookupTool shop "oak" 10 search_down_world)) /\
  exists j,
    result_of (itemLookupTool shop "oak" 10 search_down_world) = Return j /\
    ~ search_result_shape j.
Proof.
  split; [discriminate |]. split; [vm_compute; auto |].
  eexists. split; [reflexivity |].
  intros [[Hst | Hst] _]; discriminate.
Qed.

(** C1, amended.  For every non-empty query the handler returns a value.
    When the collection is reported empty, the value carries an error
    descriptor and a count of 0, and no search is attempted.  Otherwise,
    when no call to a collaborator fails, the value has a [searchType] of
    ["vector"] or ["text"] and a [count] equal to the length of its
    [results].  When a call fails, the value is the structured error
    result: its [error] field is the fixed text, its [details] the message
    of the failure, its [query] the query, and it has no [searchType], no
    [count] and no [results]. *)
Theorem lookup_result_shape {W : Type} (P : providers W)
  (query : string) (n : Z) (s : W) (Hquery : query <> "") :
  exists j,
    result_of (itemLookupTool P query n s) = Return j /\
    (In (CountDocuments (Return 0)) (log_of (itemLookupTool P query n s)) ->
     empty_inventory_shape j /\
     forall ev, In ev (log_of (itemLookupTool P query n s)) ->
                is_search ev = false) /\
    (~ In (CountDocuments (Return 0)) (log_of (itemLookupTool P query n s)) ->
     (forall ev, In ev (log_of (itemLookupTool P query n s)) ->
                 failure_of ev = None) ->
     search_result_shape j) /\
    (forall ev e,
       In ev (log_of (itemLookupTool P query n s)) ->
       failure_of ev = Some e ->
       error_result_shape j (error_text e) /\
       get_field "error" j = Some (JStr "Failde to seach inventory") /\
       get_field "details" j = Some (JStr (error_text e)) /\
       get_field "query" j = Some (JStr query) /\
       get_field "searchType" j = None /\
       get_field "count" j = None /\
       get_field "results" j = None).
Proof.
  destruct (lookup_never_failing_shape P query n s) as (j & Hj & Hempty & Hok).
  destruct (lookup_failure_result P query n s) as (j' & Hj' & Herr).
  exists j. split; [exact Hj |]. split; [exact Hempty |].
  split; [exact Hok |].
  intros ev e Hin Hfail. rewrite Hj in Hj'. injection Hj' as <-.
  rewrite (Herr ev e Hin Hfail).
  split; [split; [eexists |]; reflexivity |].
  repeat split; reflexivity.
Qed.

(** C1, amended, at concrete runs with a non-empty query and two items:
    a text search that finds one of them, and a similarity search that
    fails. *)
Lemma lookup_result_shape_witness :
  "oak" <> "" /\
  (exists j,
     result_of (itemLookupTool shop "oak" 10 tool_loop_world) = Return j /\
     search_result_shape j) /\
  (exists j,
     result_of (itemLookupTool shop "oak" 10 search_down_world) = Return j /\
     get_field "details" j = Some (JStr "connection reset") /\
     get_field "query" j = Some (JStr "oak") /\
     get_field "searchType" j = None /\
     get_field "count" j = None).
Proof.
  split; [discriminate |]. split.
  - destruct (lookup_result_shape shop 10 tool_loop_world (query := "oak"))
      as (j & Hj & _ & Hshape & _); [discriminate |].
    exists j. split; [exact Hj |]. apply Hshape.
    + vm_compute. intuition discriminate.
    + intros ev Hin. vm_compute in Hin.
      repeat (destruct Hin as [<- | Hin]; [reflexivity |]). contradiction.
  - destruct (lookup_result_shape shop 10 search_down_world (query := "oak"))
      as (j & Hj & _ & _ & Hfail); [discriminate |].
    exists j. split; [exact Hj |].
    destruct (Hfail (SimilaritySearch "oak" 10
                       (Throw (new_Error "connection reset")))
                    (new_Error "connection reset"))
      as (_ & _ & Hdetails & Hq & Hst & Hcount & _).
    + vm_compute. auto 10.
    + reflexivity.
    + auto.
Defined.

(** The text filter selects a document when the pattern matches one of
    four fields: the name, the description, the categories and the
    embedding text. *)
Lemma matches_text_filter (regex : string -> string -> string -> bool)
  (query : string) (doc : json) :
  matches regex (text_filter query) doc =
  field_matches regex "item_name" query "i" doc
  || field_matches regex "item_description" query "i" doc
  || field_matches regex "categories" query "i" doc
  || field_matches regex "embedding_text" query "i" doc.
Proof.
  cbn. rewrite orb_false_r. now rewrite !orb_assoc.
Qed.

Lemma limit_positive (k : Z) (l : list json) :
  0 < k -> limit k l = firstn (Z.to_nat k) l.
Proof.
  intros Hk. unfold limit. destruct (Z.eqb_spec k 0); [lia |].
  now rewrite Z.abs_eq by lia.
Qed.

(** C2 as stated fails: for the query ["oak"] the text fallback returns the
    dining table, whose embedding text alone mentions oak; a
    case-insensitive substring match across name, description and
    categories selects nothing. *)
Lemma fallback_searches_embedding_text :
  result_of (itemLookupTool shop "oak" 10 tool_loop_world)
    = Return (text_result "oak" [oak_table]) /\
  firstn 10 (List.filter (spec_text_match "oak") (docs tool_loop_world)) = [] /\
  result_of (itemLookupTool shop "oak" 10 tool_loop_world)
    <> Return (text_result "oak"
         (firstn 10
            (List.filter (spec_text_match "oak") (docs tool_loop_world)))).
Proof.
  split; [reflexivity |]. split; [reflexivity |].
  vm_compute. discriminate.
Qed.

(** C2, amended.  The handler runs the text search exactly when the
    similarity search has answered with zero matches.  The text search is
    the query [find(text_filter query).limit(n)]: a case-insensitive
    regular-expression match, the query being the pattern, across the
    fields [item_name], [item_description], [categories] and
    [embedding_text]; its documents are returned marked ["text"].  One or
    more similarity matches are returned as they came, in their order,
    marked ["vector"].  Over a collection held in memory, for [n >= 1], the
    fallback returns the first [n] documents the pattern matches in one of
    the four fields. *)
Theorem lookup_fallback {W : Type} (P : providers W)
  (query : string) (n : Z) (s : W) :
  ((exists r, In (Find (text_filter query) n r)
                 (log_of (itemLookupTool P query n s))) <->
   In (SimilaritySearch query n (Return []))
      (log_of (itemLookupTool P query n s))) /\
  (forall found,
     In (Find (text_filter query) n (Return found))
        (log_of (itemLookupTool P query n s)) ->
     result_of (itemLookupTool P query n s)
       = Return (text_result query found)) /\
  (forall hits,
     hits <> [] ->
     In (SimilaritySearch query n (Return hits))
        (log_of (itemLookupTool P query n s)) ->
     result_of (itemLookupTool P query n s)
       = Return (vector_result query hits)) /\
  (forall regex w,
     0 < n -> docs w <> [] -> vector_hits w = Return [] ->
     result_of (itemLookupTool (store_providers regex) query n w)
       = Return (text_result query
           (firstn (Z.to_nat n)
              (List.filter
                 (fun doc =>
                    field_matches regex "item_name" query "i" doc
                    || field_matches regex "item_description" query "i" doc
                    || field_matches regex "categories" query "i" doc
                    || field_matches regex "embedding_text" query "i" doc)
                 (docs w))))).
Proof.
  split; [| split; [| split]].
  - lookup_cases P query n s; cbn [log_of snd]; unfold text_filter; split.
    all: try (intros [r Hin]; exfalso; absurd_in Hin).
    all: try (intros Hin; exfalso; absurd_in Hin).
    + intros _. apply length_zero_nil in Hnone. subst result. cbn. auto 10.
    + intros _. eexists. cbn. auto 10.
    + intros _. apply length_zero_nil in Hnone. subst result. cbn. auto 10.
    + intros _. eexists. cbn. auto 10.
    + intros Hin. exfalso. cbn in Hin.
      repeat (destruct Hin as [Hin | Hin]; [try congruence |]);
        try contradiction.
      injection Hin as ->. cbn in Hsome. lia.
  - intros found.
    lookup_cases P query n s; cbn [log_of result_of fst snd];
      unfold text_filter; intros Hin; cbn in Hin.
    all: repeat (destruct Hin as [Hin | Hin]; [try congruence |]);
      try contradiction.
  - intros hits Hhits.
    lookup_cases P query n s; cbn [log_of result_of fst snd];
      intros Hin; cbn in Hin.
    all: repeat (destruct Hin as [Hin | Hin]; [try congruence |]);
      try contradiction.
    all: apply length_zero_nil in Hnone; congruence.
  - intros regex w Hn Hdocs Hhits.
    rewrite itemLookupTool_unfold. cbn.
    destruct (Z.eqb_spec (Z.of_nat (List.length (docs w))) 0) as [Hz | _].
    { apply length_zero_nil in Hz. contradiction. }
    rewrite Hhits. cbn. unfold find_in. rewrite limit_positive by assumption.
    do 3 f_equal. apply filter_ext. intros doc.
    apply matches_text_filter.
Qed.

(** C2, amended, at a concrete run. *)
Lemma lookup_fallback_witness :
  result_of (itemLookupTool shop "oak" 10 tool_loop_world)
    = Return (text_result "oak" [oak_table]) /\
  result_of (itemLookupTool shop "oak" 10 answering_world)
    = Return (vector_result "oak" [(blue_sofa, 93)]).
Proof.
  split.
  - apply (proj1 (proj2 (lookup_fallback shop "oak" 10 tool_loop_world))).
    vm_compute. auto 10.
  - apply (proj1 (proj2 (proj2
             (lookup_fallback shop "oak" 10 answering_world)))).
    + discriminate.
    + vm_compute. auto 10.
Defined.

End LookupFacts.

(** ** The agent graph and the turn *)

Module AgentFacts.

Section Graph.
Context {W : Type}.
Variable P : providers W.

(** *** The nodes *)

(** The model node, attempt by attempt: each attempt formats its prompt
    with the time of the state it starts in. *)
Lemma callModel_unfold (state : list message) (s : W) :
  callModel P state s =
  match invoke P (formatMessages P state s) s with
  | (Return m, s1) =>
      (Return [m], s1,
       [Attempt 1;
        Inner (Invoke (formatMessages P state s) (Return m))])
  | (Throw e1, s1) =>
      if is_rate_limit e1 then
        match invoke P (formatMessages P state s1) s1 with
        | (Return m, s2) =>
            (Return [m], s2,
             [Attempt 1;
              Inner (Invoke (formatMessages P state s) (Throw e1));
              Sleep 2000;
              Attempt 2;
              Inner (Invoke (formatMessages P state s1) (Return m))])
        | (Throw e2, s2) =>
            if is_rate_limit e2 then
              match invoke P (formatMessages P state s2) s2 with
              | (Return m, s3) =>
                  (Return [m], s3,
                   [Attempt 1;
                    Inner (Invoke (formatMessages P state s) (Throw e1));
                    Sleep 2000;
                    Attempt 2;
                    Inner (Invoke (formatMessages P state s1) (Throw e2));
                    Sleep 4000;
                    Attempt 3;
                    Inner (Invoke (formatMessages P state s2) (Return m))])
              | (Throw e3, s3) =>
                  (Throw e3, s3,
                   [Attempt 1;
                    Inner (Invoke (formatMessages P state s) (Throw e1));
                    Sleep 2000;
                    Attempt 2;
                    Inner (Invoke (formatMessages P state s1) (Throw e2));
                    Sleep 4000;
                    Attempt 3;
                    Inner (Invoke (formatMessages P state s2) (Throw e3))])
              end
            else
              (Throw e2, s2,
               [Attempt 1;
                Inner (Invoke (formatMessages P state s) (Throw e1));
                Sleep 2000;
                Attempt 2;
                Inner (Invoke (formatMessages P state s1) (Throw e2))])
        end
      else
        (Throw e1, s1,
         [Attempt 1;
          Inner (Invoke (formatMessages P state s) (Throw e1))])
  end.
Proof.
  unfold callModel, retryWithBackoff, attempt_range.
  change (Z.to_nat 3) with 3%nat. cbn [range_from].
  unfold bind at 1. rewrite RetryFacts.retry_loop_cons.
  unfold bind at 1, call, ret.
  destruct (invoke P (formatMessages P state s) s)
    as [[m | e1] s1]; [reflexivity |].
  cbn [map app]. destruct (is_rate_limit e1); [| reflexivity].
  cbn [andb Z.ltb Z.compare Pos.compare Pos.compare_cont].
  rewrite RetryFacts.retry_loop_cons.
  unfold bind at 1, call, ret.
  destruct (invoke P (formatMessages P state s1) s1)
    as [[m | e2] s2]; [reflexivity |].
  cbn [map app]. destruct (is_rate_limit e2); [| reflexivity].
  cbn [andb Z.ltb Z.compare Pos.compare Pos.compare_cont].
  rewrite RetryFacts.retry_loop_cons.
  unfold bind at 1, call, ret.
  destruct (invoke P (formatMessages P state s2) s2)
    as [[m | e3] s3]; [reflexivity |].
  cbn [map app]. rewrite andb_false_r. reflexivity.
Qed.

(** The handler talks to the inventory only. *)
Lemma lookup_log_no_invoke (query : string) (n : Z) (s : W) :
  Forall (fun ev => is_invoke ev = false)
         (log_of (itemLookupTool P query n s)).
Proof.
  LookupFacts.lookup_cases P query n s; cbn [log_of snd];
    repeat constructor.
Qed.

(** A tool call is always answered by a message. *)
Lemma run_tool_run (c : tool_call) (s : W) :
  exists m s1 t,
    run_tool P c s = (Return m, s1, t) /\
    Forall (fun ev => is_invoke ev = false) t.
Proof.
  unfold run_tool.
  destruct (String.eqb (tc_name c) "item_lookup").
  - destruct (get_field "query" (tc_args c)) as [[| | | query | |] |];
      try (cbn; do 3 eexists; split; [reflexivity | constructor]).
    destruct (n_argument (tc_args c)) as [n |];
      try (cbn; do 3 eexists; split; [reflexivity | constructor]).
    destruct (LookupFacts.lookup_failure_result P query n s) as (j & Hj & _).
    pose proof (lookup_log_no_invoke query n s) as Hlog.
    unfold try_catch, bind, ret.
    destruct (itemLookupTool P query n s) as [[r s1] t].
    cbn in Hj, Hlog. subst r.
    do 3 eexists. split; [reflexivity |]. now rewrite app_nil_r.
  - cbn. do 3 eexists. split; [reflexivity | constructor].
Qed.

Lemma run_tools_run (calls : list tool_call) :
  forall s : W,
    exists ms s1 t,
      run_tools P calls s = (Return ms, s1, t) /\
      Forall (fun ev => is_invoke ev = false) t.
Proof.
  induction calls as [| c calls IH]; intros s.
  - cbn. do 3 eexists. split; [reflexivity | constructor].
  - cbn [run_tools]. unfold bind at 1.
    destruct (run_tool_run c s) as (m & s1 & t & -> & Ht).
    unfold bind at 1.
    destruct (IH s1) as (ms & s2 & t2 & -> & Ht2).
    cbn. do 3 eexists. split; [reflexivity |].
    rewrite app_nil_r. apply Forall_app. auto.
Qed.

Lemma last_message_snoc (l : list message) (m : message) :
  last_message (l ++ [m]) = Some m.
Proof.
  unfold last_message. rewrite length_app. cbn [List.length].
  replace (List.length l + 1 - 1)%nat with (List.length l) by lia.
  rewrite nth_error_app2 by lia. now rewrite Nat.sub_diag.
Qed.

Lemma last_ai_message_snoc (l : list message) (text : string)
  (calls : list tool_call) :
  last_ai_message (l ++ [AIMessage text calls]) = Some (AIMessage text calls).
Proof.
  induction l as [| m l IH]; [reflexivity |].
  cbn [app last_ai_message]. now rewrite IH.
Qed.

(** When the state ends in a message of the model, that message is the one
    the tools node takes. *)
Lemma last_message_ai (state : list message) (text : string)
  (calls : list tool_call) :
  last_message state = Some (AIMessage text calls) ->
  last_ai_message state = Some (AIMessage text calls).
Proof.
  destruct state as [| x state]; [discriminate |].
  destruct (@exists_last _ (x :: state)) as (l & m & Heq); [discriminate |].
  rewrite Heq, last_message_snoc. intros Hm. injection Hm as ->.
  apply last_ai_message_snoc.
Qed.

Lemma last_ai_message_is_ai (state : list message) (m : message) :
  last_ai_message state = Some m -> exists text calls, m = AIMessage text calls.
Proof.
  induction state as [| x state IH]; [discriminate |].
  cbn [last_ai_message].
  destruct (last_ai_message state) as [found |].
  - intros Hm. injection Hm as <-. now apply IH.
  - destruct x; try discriminate. intros Hm. injection Hm as <-. eauto.
Qed.

Lemma toolNode_ai (state : list message) (text : string)
  (calls : list tool_call) :
  last_message state = Some (AIMessage text calls) ->
  toolNode P state = relabel Inner (run_tools P (unanswered state calls)).
Proof.
  intros H. unfold toolNode. now rewrite (last_message_ai _ H).
Qed.

(** The tools node logs calls of the inventory only, and returns whenever
    the last message is a message of the model. *)
Lemma toolNode_run (state : list message) (s : W) :
  exists r s1 t,
    toolNode P state s = (r, s1, map Inner t) /\
    Forall (fun ev => is_invoke ev = false) t /\
    (forall text calls,
       last_message state = Some (AIMessage text calls) ->
       exists update, r = Return update).
Proof.
  unfold toolNode.
  destruct (last_ai_message state) as [m |] eqn:Hai.
  - destruct (last_ai_message_is_ai _ Hai) as (text & calls & ->).
    unfold relabel.
    destruct (run_tools_run (unanswered state calls) s)
      as (ms & s1 & t & -> & Ht).
    exists (Return ms), s1, t. split; [reflexivity |]. split; [exact Ht |].
    intros _ _ _. now exists ms.
  - exists (Throw (new_Error "ToolNode only accepts AIMessages as input.")),
      s, []. split; [reflexivity |]. split; [constructor |].
    intros text calls Hlast. apply last_message_ai in Hlast. congruence.
Qed.

(** *** The graph, step by step *)

(** With no step left the run fails at once. *)
Lemma run_graph_0 (L : nat) (next : node) (state : list message) (s : W) :
  run_graph P L 0 next state s = (Throw (graph_recursion_error P L), s, []).
Proof. reflexivity. Qed.

Lemma run_graph_agent (L k : nat) (state : list message) (s : W) :
  run_graph P L (S k) AgentNode state s =
  match callModel P state s with
  | (Throw e, s1, t) => (Throw e, s1, map Within t)
  | (Return update, s1, t) =>
      match shouldContinue (reducer state update) with
      | Throw e => (Throw e, s1, map Within t)
      | Return ToEnd =>
          (at_end P L k (reducer state update), s1,
           map Within t ++
           [Checkpoint (Loop AgentNode) (reducer state update)])
      | Return ToTools =>
          match run_graph P L k ToolsNode (reducer state update) s1 with
          | (r, s2, t2) =>
              (r, s2,
               map Within t ++
               Checkpoint (Loop AgentNode) (reducer state update) :: t2)
          end
      end
  end.
Proof.
  cbn [run_graph]. unfold bind at 1, relabel.
  destruct (callModel P state s) as [[[update | e] s1] t]; [| reflexivity].
  unfold bind at 1, lift_outcome.
  destruct (shouldContinue (reducer state update)) as [[|] | e].
  - destruct k as [| k].
    + cbn. reflexivity.
    + unfold bind, emit, check_bound, ret.
      destruct (run_graph P L (S k) ToolsNode (reducer state update) s1)
        as [[r s2] t2].
      reflexivity.
  - destruct k as [| k]; reflexivity.
  - now rewrite app_nil_r.
Qed.

Lemma run_graph_tools (L k : nat) (state : list message) (s : W) :
  run_graph P L (S k) ToolsNode state s =
  match toolNode P state s with
  | (Throw e, s1, t) => (Throw e, s1, map Within t)
  | (Return update, s1, t) =>
      match run_graph P L k AgentNode (reducer state update) s1 with
      | (r, s2, t2) =>
          (r, s2,
           map Within t ++
           Checkpoint (Loop ToolsNode) (reducer state update) :: t2)
      end
  end.
Proof.
  cbn [run_graph]. unfold bind at 1, relabel.
  destruct (toolNode P state s) as [[[update | e] s1] t]; [| reflexivity].
  destruct k as [| k].
  - cbn. reflexivity.
  - unfold bind, emit, check_bound, ret.
    destruct (run_graph P L (S k) AgentNode (reducer state update) s1)
      as [[r s2] t2].
    reflexivity.
Qed.

Lemma callAgent_unfold (message id : string) (s : W) :
  callAgent P message id s =
  match run_graph P 15 15 AgentNode
          (reducer (load_thread P id s) [HumanMessage message]) s with
  | (Throw e, s1, t) =>
      (Throw (on_error e), s1,
       Checkpoint Input (load_thread P id s)
       :: Checkpoint Start
            (reducer (load_thread P id s) [HumanMessage message]) :: t)
  | (Return finalState, s1, t) =>
      (match last_message finalState with
       | Some m => Return (message_content m)
       | None =>
           Throw (on_error
                    (ErrorObj "TypeError"
                       "Cannot read properties of undefined (reading 'content')"
                       None None))
       end, s1,
       Checkpoint Input (load_thread P id s)
       :: Checkpoint Start
            (reducer (load_thread P id s) [HumanMessage message]) :: t)
  end.
Proof.
  unfold callAgent, try_catch, app_invoke, bind, emit, throw, ret.
  destruct (run_graph P 15 15 AgentNode
              (reducer (load_thread P id s) [HumanMessage message]) s)
    as [[[finalState | e] s1] t].
  - destruct (last_message finalState); cbn; now rewrite ?app_nil_r.
  - cbn. now rewrite ?app_nil_r.
Qed.



(** *** What the log of a turn shows *)

Lemma checkpoints_app (t1 t2 : list gev) :
  checkpoints (t1 ++ t2) = checkpoints t1 ++ checkpoints t2.
Proof.
  induction t1 as [| [src ms | e] t1 IH]; cbn; auto. now rewrite IH.
Qed.

Lemma checkpoints_within (t : list (wev pev)) :
  checkpoints (map Within t) = [].
Proof. induction t; cbn; auto. Qed.

(** The saved states of a run of the graph grow at the tail, and so does
    the state it returns. *)
Lemma run_graph_append_only (L k : nat) :
  forall (next : node) (state : list message) (s : W),
    append_only state
      (checkpoints (log_of (run_graph P L k next state s))) /\
    (forall final,
       result_of (run_graph P L k next state s) = Return final ->
       exists added, final = state ++ added).
Proof.
  induction k as [| k IH]; intros next state s.
  - cbn. split; [exact I | discriminate].
  - destruct next.
    + rewrite run_graph_agent.
      destruct (callModel P state s) as [[[update | e] s1] t].
      * destruct (shouldContinue (reducer state update)) as [[|] | e].
        -- destruct (IH ToolsNode (reducer state update) s1) as [IHa IHr].
           destruct (run_graph P L k ToolsNode (reducer state update) s1)
             as [[r s2] t2].
           cbn [log_of result_of fst snd] in *.
           rewrite checkpoints_app, checkpoints_within. cbn. split.
           ++ split; [now exists update | exact IHa].
           ++ intros final Hfinal. destruct (IHr final Hfinal) as [added ->].
              exists (update ++ added). unfold reducer. now rewrite app_assoc.
        -- cbn [log_of result_of fst snd].
           rewrite checkpoints_app, checkpoints_within. cbn. split.
           ++ split; [now exists update | exact I].
           ++ intros final Hfinal. destruct k; [discriminate |].
              injection Hfinal as <-. now exists update.
        -- cbn [log_of result_of fst snd]. rewrite checkpoints_within.
           split; [exact I | discriminate].
      * cbn [log_of result_of fst snd]. rewrite checkpoints_within.
        split; [exact I | discriminate].
    + rewrite run_graph_tools.
      destruct (toolNode P state s) as [[[update | e] s1] t].
      * destruct (IH AgentNode (reducer state update) s1) as [IHa IHr].
        destruct (run_graph P L k AgentNode (reducer state update) s1)
          as [[r s2] t2].
        cbn [log_of result_of fst snd] in *.
        rewrite checkpoints_app, checkpoints_within. cbn. split.
        -- split; [now exists update | exact IHa].
        -- intros final Hfinal. destruct (IHr final Hfinal) as [added ->].
           exists (update ++ added). unfold reducer. now rewrite app_assoc.
      * cbn [log_of result_of fst snd]. rewrite checkpoints_within.
        split; [exact I | discriminate].
Qed.

Lemma node_runs_app (n : node) (t1 t2 : list gev) :
  node_runs n (t1 ++ t2) = (node_runs n t1 + node_runs n t2)%nat.
Proof.
  induction t1 as [| [[| | [|]] ms | e] t1 IH]; destruct n; cbn; auto.
Qed.

Lemma node_runs_within (n : node) (t : list (wev pev)) :
  node_runs n (map Within t) = O.
Proof. induction t; destruct n; cbn; auto. Qed.

Lemma model_calls_app (t1 t2 : list gev) :
  model_calls (t1 ++ t2) = (model_calls t1 + model_calls t2)%nat.
Proof.
  induction t1 as [| [src ms | [[] | k | ms]] t1 IH]; cbn; auto.
Qed.

Lemma model_calls_tools (t : list pev) :
  Forall (fun ev => is_invoke ev = false) t ->
  model_calls (map Within (map Inner t)) = O.
Proof.
  induction 1 as [| ev t Hev _ IH]; cbn; auto.
  destruct ev; cbn in *; auto. discriminate.
Qed.

(** A model that always asks for tools keeps the graph going until the
    step bound is used up: of [k] steps left, the model node takes every
    other one, starting with the next. *)
Lemma run_graph_tool_loop (Htools : always_requests_tool P) (L k : nat) :
  (forall state s,
     result_of (run_graph P L k AgentNode state s)
       = Throw (graph_recursion_error P L) /\
     node_runs AgentNode (log_of (run_graph P L k AgentNode state s))
       = Nat.div2 (S k) /\
     node_runs ToolsNode (log_of (run_graph P L k AgentNode state s))
       = Nat.div2 k /\
     model_calls (log_of (run_graph P L k AgentNode state s))
       = Nat.div2 (S k)) /\
  (forall state s text c calls,
     last_message state = Some (AIMessage text (c :: calls)) ->
     result_of (run_graph P L k ToolsNode state s)
       = Throw (graph_recursion_error P L) /\
     node_runs AgentNode (log_of (run_graph P L k ToolsNode state s))
       = Nat.div2 k /\
     node_runs ToolsNode (log_of (run_graph P L k ToolsNode state s))
       = Nat.div2 (S k) /\
     model_calls (log_of (run_graph P L k ToolsNode state s))
       = Nat.div2 k).
Proof.
  induction k as [| k [IHagent IHtools]].
  - split; intros; cbn; auto.
  - split.
    + intros state s. rewrite run_graph_agent, callModel_unfold.
      destruct (Htools (formatMessages P state s) s)
        as (text & c & calls & s1 & ->).
      unfold shouldContinue, reducer. rewrite last_message_snoc.
      destruct (IHtools (state ++ [AIMessage text (c :: calls)]) s1
                  text c calls (last_message_snoc _ _))
        as (Hres & Hagent & Htool & Hcalls).
      destruct (run_graph P L k ToolsNode
                  (state ++ [AIMessage text (c :: calls)]) s1)
        as [[r s2] t2].
      cbn [log_of result_of fst snd] in *.
      rewrite !node_runs_app, model_calls_app. cbn.
      rewrite Hagent, Htool, Hcalls. auto.
    + intros state s text c calls Hlast. rewrite run_graph_tools.
      destruct (toolNode_run state s) as (r & s1 & t & -> & Ht & Hret).
      destruct (Hret _ _ Hlast) as [update ->].
      destruct (IHagent (reducer state update) s1)
        as (Hres & Hagent & Htool & Hcalls).
      destruct (run_graph P L k AgentNode (reducer state update) s1)
        as [[r s2] t2].
      cbn [log_of result_of fst snd] in *.
      rewrite !node_runs_app, model_calls_app, !node_runs_within,
        (model_calls_tools Ht).
      cbn. rewrite Hagent, Htool, Hcalls. auto.
Qed.

(** *** Failures of the language model *)

Lemma last_entry_app_cons {X : Type} (l1 : list X) (x : X) (l2 : list X) :
  last_entry (l1 ++ x :: l2) = last_entry (x :: l2).
Proof.
  induction l1 as [| y l1 IH]; [reflexivity |].
  cbn [app last_entry]. rewrite IH.
  destruct (l1 ++ x :: l2) eqn:Heq; [| reflexivity].
  now destruct l1.
Qed.

Lemma last_entry_in {X : Type} (l : list X) (x : X) :
  last_entry l = Some x -> In x l.
Proof.
  induction l as [| y l IH]; [discriminate |].
  cbn [last_entry]. destruct l as [| z l].
  - intros Heq. injection Heq as <-. now left.
  - intros Heq. right. now apply IH.
Qed.












End Graph.



(** C7 as stated fails: with a model that asks for the tool on every call
    the turn fails on the step bound after 8 model calls and 7 executions
    of the tools, not after 15 cycles of model call and tool execution. *)
Lemma tool_loop_not_fifteen_cycles :
  (exists e,
     result_of (callAgent shop "Do you have oak?" "t1" tool_loop_world)
       = Throw e) /\
  model_calls (log_of (callAgent shop "Do you have oak?" "t1" tool_loop_world))
    = 8%nat /\
  cycles (log_of (callAgent shop "Do you have oak?" "t1" tool_loop_world))
    = 7%nat /\
  cycles (log_of (callAgent shop "Do you have oak?" "t1" tool_loop_world))
    <> 15%nat.
Proof.
  split; [eexists; vm_compute; reflexivity |].
  split; [vm_compute; reflexivity |].
  split; [vm_compute; reflexivity |].
  vm_compute. discriminate.
Qed.

(** C7, amended.  With a language model that answers every call with a
    request for tools, the turn does not loop forever: the graph fails with
    the runtime's recursion-limit error for the bound 15, which [callAgent]
    reports as ["Agent failed: "] followed by the message of that error,
    after exactly the configured maximum of 15 steps of the graph, a model
    call and an execution of the tools counting one step each: 8 model
    calls and 7 executions of the tools. *)
Theorem tool_loop_hits_recursion_limit {W : Type} (P : providers W)
  (Htools : always_requests_tool P) (message id : string) (s : W) :
  result_of (app_invoke P [HumanMessage message] 15 id s)
    = Throw (graph_recursion_error P 15) /\
  result_of (callAgent P message id s)
    = Throw (new_Error ("Agent failed: " ++ recursionLimitMessage P 15)) /\
  steps_run (log_of (callAgent P message id s)) = 15%nat /\
  model_calls (log_of (callAgent P message id s)) = 8%nat /\
  node_runs ToolsNode (log_of (callAgent P message id s)) = 7%nat.
Proof.
  rewrite callAgent_unfold. unfold app_invoke, bind, emit.
  destruct (proj1 (run_graph_tool_loop Htools 15 15)
              (reducer (load_thread P id s) [HumanMessage message]) s)
    as (Hres & Hagent & Htool & Hcalls).
  destruct (run_graph P 15 15 AgentNode
              (reducer (load_thread P id s) [HumanMessage message]) s)
    as [[r s1] t].
  cbn [log_of result_of fst snd] in *. subst r.
  unfold steps_run. cbn [log_of result_of fst snd node_runs model_calls].
  rewrite Hagent, Htool, Hcalls. repeat split; reflexivity.
Qed.

(** C7, amended, at a concrete run. *)
Lemma tool_loop_hits_recursion_limit_witness :
  steps_run
    (log_of (callAgent tool_loop_shop "Do you have oak?" "t1" tool_loop_world))
  = 15%nat /\
  model_calls
    (log_of (callAgent tool_loop_shop "Do you have oak?" "t1" tool_loop_world))
  = 8%nat.
Proof.
  refine ((fun H => conj (proj1 (proj2 (proj2 H)))
                         (proj1 (proj2 (proj2 (proj2 H)))))
            (tool_loop_hits_recursion_limit
               (P := tool_loop_shop) _
               "Do you have oak?" "t1" tool_loop_world)).
  intros prompt w. exists "", lookup_oak, [], w. reflexivity.
Defined.

(** C9.  The reducer of the message channel is list concatenation, and
    within one turn every state the graph saves, after the input and after
    each step (model call or tool execution), is the state saved before it
    with messages added at the tail: no message already in the sequence is
    edited, removed or reordered.  The final state of a turn that completes
    is the stored thread followed by the user message and the messages of
    the turn. *)
Theorem thread_append_only {W : Type} (P : providers W)
  (message id : string) (s : W) :
  (forall x y, reducer x y = x ++ y) /\
  append_only (load_thread P id s)
    (checkpoints (log_of (callAgent P message id s))) /\
  (forall final,
     result_of (app_invoke P [HumanMessage message] 15 id s) = Return final ->
     exists added,
       final = load_thread P id s ++ HumanMessage message :: added).
Proof.
  split; [reflexivity |].
  destruct (run_graph_append_only P 15 15 AgentNode
              (reducer (load_thread P id s) [HumanMessage message]) s)
    as [Hchain Hfinal].
  split.
  - rewrite callAgent_unfold.
    destruct (run_graph P 15 15 AgentNode
                (reducer (load_thread P id s) [HumanMessage message]) s)
      as [[[finalState | e] s1] t];
      cbn [log_of result_of fst snd checkpoints append_only] in *;
      (split; [exists []; now rewrite app_nil_r |]);
      (split; [now exists [HumanMessage message] | exact Hchain]).
  - intros final Hres. unfold app_invoke, bind, emit in Hres.
    destruct (run_graph P 15 15 AgentNode
                (reducer (load_thread P id s) [HumanMessage message]) s)
      as [[r s1] t].
    cbn [log_of result_of fst snd] in *.
    destruct (Hfinal final Hres) as [added ->].
    exists added. unfold reducer. now rewrite <- app_assoc.
Qed.

(** C9, at a concrete run: a stored thread of two messages, one call of the
    tool and the final answer; the turn ends with the thread extended by
    four messages. *)
Lemma thread_append_only_witness :
  exists added,
    result_of (app_invoke shop [HumanMessage "Do you have oak?"] 15 "t1"
                 answering_world)
      = Return (history answering_world
                  ++ HumanMessage "Do you have oak?" :: added)
    /\ List.length added = 3%nat.
Proof.
  destruct (proj2 (proj2 (thread_append_only shop "Do you have oak?" "t1"
                            answering_world))
              (history answering_world ++
               [HumanMessage "Do you have oak?";
                AIMessage "" [lookup_oak];
                ToolMessage
                  (Stringified (vector_result "oak" [(blue_sofa, 93)]))
                  "call_1";
                AIMessage "Yes, we have one." []]))
    as [added Hadded].
  - vm_compute. reflexivity.
  - vm_compute in Hadded. injection Hadded as <-.
    eexists. split; reflexivity.
Defined.

End AgentFacts.

(* ================================================================= *)
(** * Further properties *)

(** ** The retry helper: edge cases and waits *)

Module RetryEdge.


Lemma backoff_delay_values (a : Z) :
  1 <= a ->
  backoff_delay a = if a <=? 4 then 1000 * 2 ^ a else 30000.
Proof.
  intros Ha. unfold backoff_delay.
  destruct (Z.leb_spec a 4) as [Hle | Hgt].
  - assert (2 ^ a <= 2 ^ 4) by (apply Z.pow_le_mono_r; lia).
    change (2 ^ 4) with 16 in *. lia.
  - assert (2 ^ 5 <= 2 ^ a) by (apply Z.pow_le_mono_r; lia).
    change (2 ^ 5) with 32 in *. lia.
Qed.



(** X1.  With [maxRetries <= 0] the helper never calls the operation: it
    throws ["Max retries exceeded"] at once, without a wait, and leaves the
    state of the collaborators as it was. *)
Theorem retry_without_attempts {W E A : Type}
  (fn : M W E A) (maxRetries : Z) (s : W) (Hmax : maxRetries <= 0) :
  retryWithBackoff fn maxRetries s
  = (Throw (new_Error "Max retries exceeded"), s, []).
Proof.
  unfold retryWithBackoff, bind.
  rewrite RetryFacts.retry_loop_none by exact Hmax. reflexivity.
Qed.

Lemma retry_without_attempts_witness :
  retryWithBackoff (@scripted string) (-2) [Return "ok"]
  = (Throw (new_Error "Max retries exceeded"), [Return "ok"], []).
Proof. apply retry_without_attempts. lia. Defined.





(** X3.  For every [maxRetries], the wait before attempt [k] is
    [1000 * 2^(k-1)] ms up to the fifth attempt (2, 4, 8 and 16 s) and the
    cap of 30 s before every later attempt. *)
Theorem retry_delay_capped {W E A : Type}
  (fn : M W E A) (maxRetries : Z) (s : W) (k : Z)
  (Hk : 2 <= k)
  (Hin : In (Attempt k) (log_of (retryWithBackoff fn maxRetries s))) :
  delay_before (log_of (retryWithBackoff fn maxRetries s)) k
  = Some (if k <=? 5 then 1000 * 2 ^ (k - 1) else 30000).
Proof.
  destruct (Z.le_gt_cases 1 maxRetries) as [Hmax | Hmax].
  - destruct (RetryFacts.retryWithBackoff_run fn s Hmax)
      as (p & _ & _ & _ & _ & Hrun).
    rewrite Hrun in *. cbn [log_of snd] in *.
    apply RetryFacts.in_attempt_trace in Hin.
    rewrite RetryFacts.delay_before_trace by lia.
    rewrite backoff_delay_values by lia.
    destruct (Z.leb_spec (k - 1) 4), (Z.leb_spec k 5); try lia; reflexivity.
  - unfold retryWithBackoff, bind in Hin.
    rewrite RetryFacts.retry_loop_none in Hin by lia. contradiction.
Qed.

Lemma retry_delay_capped_witness :
  delay_before
    (log_of (retryWithBackoff (@scripted string) 7
       [Throw too_many_requests; Throw too_many_requests;
        Throw too_many_requests; Throw too_many_requests;
        Throw too_many_requests; Throw too_many_requests; Return "ok"]))
    7
  = Some 30000.
Proof.
  apply (retry_delay_capped (@scripted string) 7
    [Throw too_many_requests; Throw too_many_requests;
     Throw too_many_requests; Throw too_many_requests;
     Throw too_many_requests; Throw too_many_requests; Return "ok"] (k := 7)).
  - lia.
  - vm_compute. auto 20.
Defined.



End RetryEdge.

(** ** The inventory tool handler: its calls and its counts *)

Module LookupEdge.

Lemma only_last_fails (l : list pev) :
  (forall ev, In ev (removelast l) -> failure_of ev = None) ->
  forall pre ev e post,
    l = pre ++ ev :: post -> failure_of ev = Some e -> post = [].
Proof.
  intros Hok pre ev e post -> Hfail.
  destruct post as [| x post]; [reflexivity |]. exfalso.
  rewrite removelast_app in Hok by discriminate.
  assert (Hin : In ev (pre ++ removelast (ev :: x :: post))).
  { apply in_or_app. right. cbn. now left. }
  rewrite (Hok ev Hin) in Hfail. discriminate.
Qed.

(** X4.  The handler talks to its collaborators in a fixed order and only
    as far as it has to: its first call is always the count of the
    collection, it makes at most five calls, never one of the language
    model, and a call that fails is its last call. *)
Theorem lookup_call_discipline {W : Type} (P : providers W)
  (query : string) (n : Z) (s : W) :
  (exists r rest,
     log_of (itemLookupTool P query n s) = CountDocuments r :: rest) /\
  (List.length (log_of (itemLookupTool P query n s)) <= 5)%nat /\
  Forall (fun ev => is_invoke ev = false)
    (log_of (itemLookupTool P query n s)) /\
  (forall pre ev e post,
     log_of (itemLookupTool P query n s) = pre ++ ev :: post ->
     failure_of ev = Some e ->
     post = []).
Proof.
  split; [| split; [| split]].
  - LookupFacts.lookup_cases P query n s; cbn [log_of snd];
      do 2 eexists; reflexivity.
  - LookupFacts.lookup_cases P query n s; cbn [log_of snd List.length]; lia.
  - LookupFacts.lookup_cases P query n s; cbn [log_of snd];
      repeat constructor.
  - apply only_last_fails.
    LookupFacts.lookup_cases P query n s; cbn [log_of snd removelast];
      intros ev Hin; cbn in Hin;
      repeat (destruct Hin as [<- | Hin]; [reflexivity |]);
      contradiction.
Qed.

(** At a concrete run, in which the similarity search fails. *)
Lemma lookup_call_discipline_witness :
  (List.length (log_of (itemLookupTool shop "oak" 10 search_down_world))
   <= 5)%nat /\
  Forall (fun ev => is_invoke ev = false)
    (log_of (itemLookupTool shop "oak" 10 search_down_world)).
Proof.
  split; apply (lookup_call_discipline shop "oak" 10 search_down_world).
Defined.

(** X5.  What the [count] of a result means.  A result marked ["vector"]
    always carries at least one match, and its count is their number.  A
    count of 0 is reported in two cases only: the collection is empty, or
    neither search found anything, and then the result is an ordinary
    ["text"] result with no documents, not an error. *)
Theorem lookup_count_meaning {W : Type} (P : providers W)
  (query : string) (n : Z) (s : W) (j : json)
  (Hj : result_of (itemLookupTool P query n s) = Return j) :
  (get_field "searchType" j = Some (JStr "vector") ->
   exists hits,
     hits <> [] /\ j = vector_result query hits /\
     get_field "count" j = Some (JNum (Z.of_nat (List.length hits))) /\
     1 <= Z.of_nat (List.length hits)) /\
  (get_field "count" j = Some (JNum 0) ->
   j = empty_inventory_result \/ j = text_result query []).
Proof.
  revert Hj.
  LookupFacts.lookup_cases P query n s; cbn [result_of fst];
    intros Hj; injection Hj as <-; split; cbn;
    try discriminate; try (intros _; now left).
  - intros Hc. right. injection Hc as Hlen.
    apply LookupFacts.length_zero_nil in Hlen. now subst.
  - intros _. exists result. repeat split; try reflexivity.
    + intros ->. cbn in Hsome. lia.
    + lia.
  - intros Hc. injection Hc as Hlen. contradiction.
Qed.

Lemma lookup_count_meaning_witness :
  exists hits,
    hits <> [] /\
    vector_result "oak" [(blue_sofa, 93)] = vector_result "oak" hits /\
    get_field "count" (vector_result "oak" [(blue_sofa, 93)])
      = Some (JNum (Z.of_nat (List.length hits))) /\
    1 <= Z.of_nat (List.length hits).
Proof.
  apply (lookup_count_meaning shop "oak" 10 answering_world
           (j := vector_result "oak" [(blue_sofa, 93)])).
  - reflexivity.
  - reflexivity.
Defined.

End LookupEdge.

(** ** The nodes of the graph: routing, the model step, the tool calls *)

Module NodeEdge.

Section Nodes.
Context {W : Type}.
Variable P : providers W.

(** The model node by its result. *)
Lemma callModel_shape (state : list message) (s : W) :
  match callModel P state s with
  | (Return update, _, t) =>
      exists m w,
        update = [m] /\
        last_entry t
          = Some (Inner (Invoke (formatMessages P state w) (Return m)))
  | (Throw e, _, t) =>
      exists w,
        last_entry t
          = Some (Inner (Invoke (formatMessages P state w) (Throw e)))
  end /\
  (1 <= attempts_made (log_of (callModel P state s)) <= 3)%nat /\
  total_wait (log_of (callModel P state s)) <= 6000 /\
  (forall prompt r,
     In (Inner (Invoke prompt r)) (log_of (callModel P state s)) ->
     exists w, prompt = formatMessages P state w) /\
  (exists r rest,
     log_of (callModel P state s)
     = Attempt 1 :: Inner (Invoke (formatMessages P state s) r) :: rest).
Proof.
  rewrite AgentFacts.callModel_unfold.
  destruct (invoke P (formatMessages P state s) s)
    as [[m | e1] s1];
    [| destruct (is_rate_limit e1);
       [ destruct (invoke P (formatMessages P state s1) s1)
           as [[m | e2] s2];
         [| destruct (is_rate_limit e2);
            [ destruct (invoke P (formatMessages P state s2) s2)
                as [[m | e3] s3] | ] ] | ] ].
  all: cbn [log_of snd attempts_made sleeps total_wait fold_right last_entry].
  all: split; [try (do 2 eexists; split; reflexivity); eexists; reflexivity |].
  all: split; [lia |]; split; [lia |].
  all: split; [| do 2 eexists; reflexivity].
  all: intros prompt r Hin; cbn in Hin;
    repeat (destruct Hin as [Heq | Hin];
            [try discriminate; injection Heq as <- _; eexists; reflexivity |]);
    contradiction.
Qed.

End Nodes.



End NodeEdge.

(** ** The turn: what it returns, what it throws, what it costs *)

Module TurnEdge.

Lemma last_entry_map {X Y : Type} (f : X -> Y) (l : list X) :
  last_entry (map f l) = option_map f (last_entry l).
Proof.
  induction l as [| x l IH]; [reflexivity |].
  cbn [map last_entry]. rewrite IH. now destruct l.
Qed.

Lemma last_entry_cons {X : Type} (x : X) (l : list X) (y : X) :
  last_entry l = Some y -> last_entry (x :: l) = Some y.
Proof. destruct l; [discriminate | auto]. Qed.

Lemma shouldContinue_snoc (earlier : list message) (m : message) :
  shouldContinue (earlier ++ [m])
  = Return (match m with
            | AIMessage _ (_ :: _) => ToTools
            | _ => ToEnd
            end).
Proof.
  unfold shouldContinue. rewrite AgentFacts.last_message_snoc.
  destruct m as [t | t | t [| c calls] | b i]; reflexivity.
Qed.

Section Turn.
Context {W : Type}.
Variable P : providers W.

(** How a run of the graph can end: with a state whose last message is an
    answer of the model that asks for no tool, on the step bound, or on a
    rejected call of the model. *)
Lemma run_graph_outcomes (L k : nat) :
  forall (next : node) (state : list message) (s : W),
    (next = ToolsNode ->
     exists text c calls,
       last_message state = Some (AIMessage text (c :: calls))) ->
    match result_of (run_graph P L k next state s) with
    | Return st =>
        exists st' m prompt,
          st = st' ++ [m] /\
          In (Within (Inner (Invoke prompt (Return m))))
             (log_of (run_graph P L k next state s)) /\
          shouldContinue st = Return ToEnd /\
          last_entry (log_of (run_graph P L k next state s))
            = Some (Checkpoint (Loop AgentNode) st)
    | Throw e =>
        e = graph_recursion_error P L \/
        exists prompt,
          last_entry (log_of (run_graph P L k next state s))
            = Some (Within (Inner (Invoke prompt (Throw e))))
    end.
Proof.
  induction k as [| k IH]; intros next state s Hpre.
  - cbn. now left.
  - destruct next.
    + rewrite AgentFacts.run_graph_agent.
      destruct (NodeEdge.callModel_shape P state s) as (Hshape & _).
      destruct (callModel P state s) as [[[update | e] s1] t].
      * destruct Hshape as (m & w & -> & Hlast). unfold reducer.
        rewrite shouldContinue_snoc.
        assert (Hin : In (Within (Inner (Invoke
                        (formatMessages P state w) (Return m))))
                        (map Within t)).
        { apply in_map. now apply AgentFacts.last_entry_in. }
        destruct m as [tx | tx | tx [| c calls] | b i];
          try (destruct k as [| k']; [cbn; now left |];
               cbn [at_end result_of log_of fst snd];
               exists state; eexists; eexists;
               split; [reflexivity |];
               split; [apply in_or_app; left; exact Hin |];
               split; [now rewrite shouldContinue_snoc |];
               now rewrite AgentFacts.last_entry_app_cons).
        specialize (IH ToolsNode (state ++ [AIMessage tx (c :: calls)]) s1).
        destruct (run_graph P L k ToolsNode
                    (state ++ [AIMessage tx (c :: calls)]) s1)
          as [[r s2] t2].
        cbn [result_of log_of fst snd] in *.
        assert (Hpre' : ToolsNode = ToolsNode ->
                  exists text c0 calls0,
                    last_message (state ++ [AIMessage tx (c :: calls)])
                    = Some (AIMessage text (c0 :: calls0))).
        { intros _. do 3 eexists. apply AgentFacts.last_message_snoc. }
        specialize (IH Hpre'). destruct r as [st | e].
        -- destruct IH as (st' & m & prompt & -> & Hin2 & Hend & Hlast2).
           exists st', m, prompt. split; [reflexivity |].
           split; [apply in_or_app; right; right; exact Hin2 |].
           split; [exact Hend |].
           rewrite AgentFacts.last_entry_app_cons.
           now apply last_entry_cons.
        -- destruct IH as [-> | [prompt Hlast2]]; [now left |].
           right. exists prompt.
           rewrite AgentFacts.last_entry_app_cons.
           now apply last_entry_cons.
      * cbn [result_of log_of fst snd]. right.
        destruct Hshape as (w & Hshape). eexists.
        rewrite last_entry_map, Hshape. reflexivity.
    + rewrite AgentFacts.run_graph_tools.
      destruct (Hpre eq_refl) as (text & c & calls & Hlast).
      destruct (AgentFacts.toolNode_run P state s)
        as (r0 & s1 & t & -> & _ & Hret).
      destruct (Hret _ _ Hlast) as [update ->].
      specialize (IH AgentNode (reducer state update) s1).
      destruct (run_graph P L k AgentNode (reducer state update) s1)
        as [[r s2] t2].
      cbn [result_of log_of fst snd] in *.
      assert (Hpre' : AgentNode = ToolsNode ->
                exists text0 c0 calls0,
                  last_message (reducer state update)
                  = Some (AIMessage text0 (c0 :: calls0)))
        by discriminate.
      specialize (IH Hpre'). destruct r as [st | e].
      * destruct IH as (st' & m & prompt & -> & Hin2 & Hend & Hlast2).
        exists st', m, prompt. split; [reflexivity |].
        split; [apply in_or_app; right; right; exact Hin2 |].
        split; [exact Hend |].
        rewrite AgentFacts.last_entry_app_cons. now apply last_entry_cons.
      * destruct IH as [-> | [prompt Hlast2]]; [now left |].
        right. exists prompt.
        rewrite AgentFacts.last_entry_app_cons. now apply last_entry_cons.
Qed.

Lemma callModel_model_calls (state : list message) (s : W) :
  (model_calls (map Within (log_of (callModel P state s))) <= 3)%nat.
Proof.
  rewrite AgentFacts.callModel_unfold.
  destruct (invoke P (formatMessages P state s) s)
    as [[m | e1] s1];
    [| destruct (is_rate_limit e1);
       [ destruct (invoke P (formatMessages P state s1) s1)
           as [[m | e2] s2];
         [| destruct (is_rate_limit e2);
            [ destruct (invoke P (formatMessages P state s2) s2)
                as [[m | e3] s3] | ] ] | ] ];
    cbn; lia.
Qed.

Ltac count_steps k :=
  change (Nat.div2 (S (S k))) with (S (Nat.div2 k));
  simpl node_runs; simpl model_calls;
  let a := fresh "a" in
  let b := fresh "b" in
  set (a := Nat.div2 k) in *; set (b := Nat.div2 (S k)) in *;
  clearbody a b; lia.

(** Of [k] steps left, the model node takes at most every other one, and
    each of its steps calls the model at most three times. *)
Lemma run_graph_bounds (L k : nat) :
  (forall state s,
     (node_runs AgentNode (log_of (run_graph P L k AgentNode state s))
      <= Nat.div2 (S k))%nat /\
     (node_runs ToolsNode (log_of (run_graph P L k AgentNode state s))
      <= Nat.div2 k)%nat /\
     (model_calls (log_of (run_graph P L k AgentNode state s))
      <= 3 * Nat.div2 (S k))%nat) /\
  (forall state s,
     (node_runs AgentNode (log_of (run_graph P L k ToolsNode state s))
      <= Nat.div2 k)%nat /\
     (node_runs ToolsNode (log_of (run_graph P L k ToolsNode state s))
      <= Nat.div2 (S k))%nat /\
     (model_calls (log_of (run_graph P L k ToolsNode state s))
      <= 3 * Nat.div2 k)%nat).
Proof.
  induction k as [| k [IHagent IHtools]].
  - split; intros; cbn; auto.
  - split; intros state s.
    + rewrite AgentFacts.run_graph_agent.
      pose proof (callModel_model_calls state s) as Hcalls.
      destruct (callModel P state s) as [[[update | e] s1] t];
        cbn [log_of snd] in Hcalls.
      * destruct (shouldContinue (reducer state update)) as [[|] | e].
        -- destruct (IHtools (reducer state update) s1) as (Ha & Ht & Hc).
           destruct (run_graph P L k ToolsNode (reducer state update) s1)
             as [[r s2] t2].
           cbn [log_of snd] in *.
           rewrite !AgentFacts.node_runs_app, AgentFacts.model_calls_app,
             !AgentFacts.node_runs_within.
           count_steps k.
        -- cbn [log_of snd].
           rewrite !AgentFacts.node_runs_app, AgentFacts.model_calls_app,
             !AgentFacts.node_runs_within.
           count_steps k.
        -- cbn [log_of snd]. rewrite !AgentFacts.node_runs_within.
           count_steps k.
      * cbn [log_of snd]. rewrite !AgentFacts.node_runs_within.
        count_steps k.
    + rewrite AgentFacts.run_graph_tools.
      destruct (AgentFacts.toolNode_run P state s)
        as (r0 & s1 & t & -> & Ht0 & _).
      pose proof (AgentFacts.model_calls_tools Ht0) as Hcalls.
      destruct r0 as [update | e].
      * destruct (IHagent (reducer state update) s1) as (Ha & Ht & Hc).
        destruct (run_graph P L k AgentNode (reducer state update) s1)
          as [[r s2] t2].
        cbn [log_of snd] in *.
        rewrite !AgentFacts.node_runs_app, AgentFacts.model_calls_app,
          !AgentFacts.node_runs_within, Hcalls.
        count_steps k.
      * cbn [log_of snd]. rewrite !AgentFacts.node_runs_within, Hcalls.
        count_steps k.
Qed.

(** The state answers the ids of its tool messages, and only those. *)
Lemma answered_ids_app (l1 l2 : list message) :
  answered_ids (l1 ++ l2) = answered_ids l1 ++ answered_ids l2.
Proof. unfold answered_ids. apply flat_map_app. Qed.

(** A tool call whose id the stored thread does not answer is still to be
    run after the user message and the request of the model. *)
Lemma unanswered_fresh (stored : list message) (message text : string)
  (c : tool_call) :
  ~ In (tc_id c) (answered_ids stored) ->
  unanswered ((stored ++ [HumanMessage message]) ++ [AIMessage text [c]]) [c]
  = [c].
Proof.
  intros Hfresh. unfold unanswered. cbn [List.filter].
  rewrite !answered_ids_app. cbn [answered_ids flat_map]. rewrite !app_nil_r.
  destruct (existsb (String.eqb (tc_id c)) (answered_ids stored)) eqn:Hex;
    [| reflexivity].
  exfalso. apply Hfresh. apply existsb_exists in Hex.
  destruct Hex as (x & Hin & Heq). apply String.eqb_eq in Heq. now subst x.
Qed.

(** The answer to a tool call carries the id of the call. *)
Lemma run_tool_id (c : tool_call) (s : W) (m : Data.message) (s1 : W)
  (t : list pev) :
  run_tool P c s = (Return m, s1, t) ->
  exists body, m = ToolMessage body (tc_id c).
Proof.
  unfold run_tool.
  destruct (String.eqb (tc_name c) "item_lookup").
  - destruct (get_field "query" (tc_args c)) as [[| | | query | |] |];
      try (cbn; intros H; injection H as <- _ _; eauto).
    destruct (n_argument (tc_args c)) as [n |];
      try (cbn; intros H; injection H as <- _ _; eauto).
    unfold try_catch, bind, ret.
    destruct (itemLookupTool P query n s) as [[[j | e] s2] t2];
      cbn; intros H; injection H as <- _ _; eauto.
  - cbn. intros H. injection H as <- _ _. eauto.
Qed.

End Turn.



(** X10.  A reply returned by [callAgent] is always the content of an
    answer of the language model that asked for no tool, and that answer
    is the last message of the last state saved: the turn never returns
    the user's message or the result of a tool as its reply. *)
Theorem reply_is_model_answer {W : Type} (P : providers W)
  (message id : string) (s : W) (reply : content)
  (Hreply : result_of (callAgent P message id s) = Return reply) :
  exists earlier m prompt,
    last_entry (log_of (callAgent P message id s))
      = Some (Checkpoint (Loop AgentNode) (earlier ++ [m])) /\
    In (Within (Inner (Invoke prompt (Return m))))
       (log_of (callAgent P message id s)) /\
    reply = message_content m /\
    (forall text calls, m = AIMessage text calls -> calls = []).
Proof.
  rewrite AgentFacts.callAgent_unfold in *.
  pose proof (run_graph_outcomes P 15 15 (next := AgentNode)
                (reducer (load_thread P id s) [HumanMessage message]) s)
    as Hout.
  destruct (run_graph P 15 15 AgentNode
              (reducer (load_thread P id s) [HumanMessage message]) s)
    as [[[finalState | e0] s1] t]; cbn [result_of log_of fst snd] in *;
    [| discriminate].
  destruct Hout as (earlier & m & prompt & -> & Hin & Hend & Hlast);
    [discriminate |].
  rewrite AgentFacts.last_message_snoc in Hreply. injection Hreply as <-.
  exists earlier, m, prompt.
  split; [now do 2 apply last_entry_cons |].
  split; [now do 2 right |]. split; [reflexivity |].
  intros text calls ->. rewrite shouldContinue_snoc in Hend.
  destruct calls; [reflexivity | discriminate].
Qed.

Lemma reply_is_model_answer_witness :
  exists earlier m prompt,
    last_entry (log_of (callAgent shop "Do you have oak?" "t1"
                          answering_world))
      = Some (Checkpoint (Loop AgentNode) (earlier ++ [m])) /\
    In (Within (Inner (Invoke prompt (Return m))))
       (log_of (callAgent shop "Do you have oak?" "t1" answering_world)) /\
    Text "Yes, we have one." = message_content m /\
    (forall text calls, m = AIMessage text calls -> calls = []).
Proof.
  apply reply_is_model_answer. vm_compute. reflexivity.
Defined.

(** X11.  Whatever the collaborators do, one turn runs at most 15 steps of
    the graph: at most 8 steps of the model, hence at most 24 calls of the
    model, and at most 7 executions of the tools. *)
Theorem turn_is_bounded {W : Type} (P : providers W)
  (message id : string) (s : W) :
  (node_runs AgentNode (log_of (callAgent P message id s)) <= 8)%nat /\
  (node_runs ToolsNode (log_of (callAgent P message id s)) <= 7)%nat /\
  (steps_run (log_of (callAgent P message id s)) <= 15)%nat /\
  (model_calls (log_of (callAgent P message id s)) <= 24)%nat.
Proof.
  rewrite AgentFacts.callAgent_unfold.
  destruct (proj1 (run_graph_bounds P 15 15)
              (reducer (load_thread P id s) [HumanMessage message]) s)
    as (Ha & Ht & Hc).
  destruct (run_graph P 15 15 AgentNode
              (reducer (load_thread P id s) [HumanMessage message]) s)
    as [[r s1] t].
  cbn [log_of snd] in *.
  change (Nat.div2 16) with 8%nat in *. change (Nat.div2 15) with 7%nat in *.
  unfold steps_run.
  destruct r; cbn [log_of snd node_runs model_calls]; lia.
Qed.

(** X13.  One round trip through the tools.  When the model first asks
    for one tool call, whose id the stored thread does not answer yet, and
    then, shown the result, answers without asking again, the turn makes
    exactly two calls of the model and one execution of the tools, returns
    the text of the answer, and ends with the stored thread followed by the
    user message, the request of the model, the tool message that answers
    the call under its id, and the answer, in this order.  The second
    prompt is formatted at the time the second step starts. *)
Theorem one_tool_round_trip {W : Type} (P : providers W)
  (message id : string) (s s1 s2 s3 : W)
  (text1 answer : string) (c : tool_call)
  (reply : Data.message) (tlog : list pev)
  (Hfresh : ~ In (tc_id c) (answered_ids (load_thread P id s)))
  (Hask :
     invoke P
       (formatMessages P (load_thread P id s ++ [HumanMessage message]) s) s
     = (Return (AIMessage text1 [c]), s1))
  (Htool : run_tool P c s1 = (Return reply, s2, tlog))
  (Hanswer :
     invoke P
       (formatMessages P
          (((load_thread P id s ++ [HumanMessage message])
            ++ [AIMessage text1 [c]]) ++ [reply]) s2) s2
     = (Return (AIMessage answer []), s3)) :
  result_of (callAgent P message id s) = Return (Text answer) /\
  state_of (callAgent P message id s) = s3 /\
  result_of (app_invoke P [HumanMessage message] 15 id s)
    = Return ((((load_thread P id s ++ [HumanMessage message])
                ++ [AIMessage text1 [c]]) ++ [reply])
              ++ [AIMessage answer []]) /\
  (exists body, reply = ToolMessage body (tc_id c)) /\
  model_calls (log_of (callAgent P message id s)) = 2%nat /\
  node_runs ToolsNode (log_of (callAgent P message id s)) = 1%nat.
Proof.
  assert (Hrun :
    run_graph P 15 15 AgentNode
      (reducer (load_thread P id s) [HumanMessage message]) s
    = (Return ((((load_thread P id s ++ [HumanMessage message])
                 ++ [AIMessage text1 [c]]) ++ [reply])
               ++ [AIMessage answer []]),
       s3,
       map Within
         [Attempt 1;
          Inner (Invoke
                   (formatMessages P
                      (load_thread P id s ++ [HumanMessage message]) s)
                   (Return (AIMessage text1 [c])))]
       ++ Checkpoint (Loop AgentNode)
            ((load_thread P id s ++ [HumanMessage message])
             ++ [AIMessage text1 [c]])
       :: map Within (map Inner (tlog ++ []))
       ++ Checkpoint (Loop ToolsNode)
            (((load_thread P id s ++ [HumanMessage message])
              ++ [AIMessage text1 [c]]) ++ [reply])
       :: map Within
            [Attempt 1;
             Inner (Invoke
                      (formatMessages P
                         (((load_thread P id s ++ [HumanMessage message])
                           ++ [AIMessage text1 [c]]) ++ [reply]) s2)
                      (Return (AIMessage answer [])))]
       ++ [Checkpoint (Loop AgentNode)
             ((((load_thread P id s ++ [HumanMessage message])
                ++ [AIMessage text1 [c]]) ++ [reply])
              ++ [AIMessage answer []])])).
  { unfold reducer.
    rewrite AgentFacts.run_graph_agent, AgentFacts.callModel_unfold, Hask.
    unfold reducer. rewrite shouldContinue_snoc.
    rewrite AgentFacts.run_graph_tools.
    rewrite (AgentFacts.toolNode_ai P _ (AgentFacts.last_message_snoc _ _)).
    rewrite (unanswered_fresh _ message text1 _ Hfresh).
    unfold relabel. cbn [run_tools]. unfold bind at 1. rewrite Htool.
    unfold bind at 1, ret. unfold reducer.
    rewrite AgentFacts.run_graph_agent, AgentFacts.callModel_unfold, Hanswer.
    unfold reducer. rewrite shouldContinue_snoc. reflexivity. }
  assert (Hquiet : model_calls (map Within (map Inner (tlog ++ []))) = 0%nat).
  { apply AgentFacts.model_calls_tools. rewrite app_nil_r.
    destruct (AgentFacts.run_tool_run P c s1)
      as (m & s2' & t' & Heq & Hforall).
    rewrite Htool in Heq. now injection Heq as _ _ ->. }
  split; [| split; [| split; [| split; [| split]]]].
  - rewrite AgentFacts.callAgent_unfold, Hrun. cbn [result_of fst].
    now rewrite AgentFacts.last_message_snoc.
  - rewrite AgentFacts.callAgent_unfold, Hrun. reflexivity.
  - unfold app_invoke, bind, emit. rewrite Hrun. reflexivity.
  - exact (run_tool_id P _ _ Htool).
  - rewrite AgentFacts.callAgent_unfold, Hrun. cbn [log_of snd].
    cbn [map app model_calls].
    rewrite !AgentFacts.model_calls_app, Hquiet. reflexivity.
  - rewrite AgentFacts.callAgent_unfold, Hrun. cbn [log_of snd].
    cbn [map app node_runs].
    rewrite !AgentFacts.node_runs_app, !AgentFacts.node_runs_within.
    reflexivity.
Qed.

(** X13, at a concrete run: the model asks for a lookup of "oak" and then
    answers. *)
Lemma one_tool_round_trip_witness :
  result_of (callAgent shop "Do you have oak?" "t1" answering_world)
    = Return (Text "Yes, we have one.") /\
  model_calls (log_of (callAgent shop "Do you have oak?" "t1"
                         answering_world)) = 2%nat /\
  node_runs ToolsNode (log_of (callAgent shop "Do you have oak?" "t1"
                                 answering_world)) = 1%nat.
Proof.
  destruct (@one_tool_round_trip world shop "Do you have oak?" "t1"
              answering_world
              (snd (next_answer answering_world))
              (snd (next_answer answering_world))
              (snd (next_answer (snd (next_answer answering_world))))
              "" "Yes, we have one." lookup_oak
              (ToolMessage
                 (Stringified (vector_result "oak" [(blue_sofa, 93)]))
                 "call_1")
              (log_of (itemLookupTool shop "oak" 10 answering_world)))
    as (Hres & _ & _ & _ & Hcalls & Htools).
  - vm_compute. intuition discriminate.
  - reflexivity.
  - vm_compute. reflexivity.
  - reflexivity.
  - auto.
Defined.

End TurnEdge.

(** ** The chat widget *)

Module WidgetFacts.
Import Widget.

Lemma greet_shown (st : state) :
  messages st <> [] -> greet st = st.
Proof.
  intros Hne. unfold greet.
  destruct (messages st) as [| m ms] eqn:Hm; [contradiction |].
  cbn [List.length]. rewrite andb_false_r. reflexivity.
Qed.







(** X15.  A failed exchange.  From an open, idle widget, typing a text and
    sending it posts the text to the endpoint of the current thread, shows
    it as a message of the user and clears the input.  When the request
    then fails, whether [fetch] rejects, the status is not [ok] or the body
    is not JSON, nothing else changes: no reply and no error message is
    shown, the thread id stays, and the text is not put back in the
    input. *)
Theorem failed_exchange (w : widget) (value : string) (r : fetched)
  (Hopen : isOpen (ui w) = true)
  (Hshown : messages (ui w) <> [])
  (Hidle : in_flight w = [])
  (Hbad : forall resp tid, r <> Ok resp tid) :
  in_flight (run w [Typed value; Submit])
    = [{| url := endpoint (ui w); body_message := value |}] /\
  run w [Typed value; Submit; Settled r]
    = {| ui := {| isOpen := true; inputValue := "";
                  messages := messages (ui w) ++ [user_message value];
                  threadId := threadId (ui w) |};
         in_flight := [] |}.
Proof.
  destruct w as [[o v ms tid] fl].
  cbn [ui in_flight isOpen messages threadId] in *. subst o fl.
  destruct ms as [| m ms]; [contradiction |].
  split; [reflexivity |].
  destruct r as [| status | | resp rtid]; try reflexivity.
  now destruct (Hbad resp rtid).
Qed.

Lemma failed_exchange_witness :
  messages (ui (run (run mounted [Toggle])
                    [Typed "Do you have oak?"; Submit; Settled (NotOk 500)]))
  = [greeting; user_message "Do you have oak?"].
Proof.
  rewrite (proj2 (@failed_exchange (run mounted [Toggle])
                    "Do you have oak?" (NotOk 500)
                    eq_refl ltac:(discriminate) eq_refl
                    ltac:(discriminate))).
  reflexivity.
Defined.

(** X16.  A successful exchange.  From an open, idle widget, sending a
    text and receiving a good response shows the text and then the reply,
    in this order after what was shown, and stores the thread id of the
    response, replacing the one held, also when the response has none.
    The next request then goes to ["http://localhost:8000/chat"]
    immediately followed by that thread id, without a separator, and to
    ["http://localhost:8000/chat"] itself when the response had no thread
    id or an empty one. *)
Theorem successful_exchange (w : widget) (value : string)
  (resp rtid : option string)
  (Hopen : isOpen (ui w) = true)
  (Hshown : messages (ui w) <> [])
  (Hidle : in_flight w = []) :
  run w [Typed value; Submit; Settled (Ok resp rtid)]
    = {| ui := {| isOpen := true; inputValue := "";
                  messages :=
                    messages (ui w)
                    ++ [user_message value;
                        {| text := resp; isAgent := true;
                           reply_threadId := rtid |}];
                  threadId := rtid |};
         in_flight := [] |} /\
  endpoint (ui (run w [Typed value; Submit; Settled (Ok resp rtid)]))
    = match rtid with
      | Some (String c rest) =>
          ("http://localhost:8000/chat" ++ String c rest)%string
      | _ => "http://localhost:8000/chat"
      end.
Proof.
  destruct w as [[o v ms tid] fl].
  cbn [ui in_flight isOpen messages threadId] in *. subst o fl.
  destruct ms as [| m ms]; [contradiction |].
  split.
  - unfold run. cbn [fold_left]. unfold step at 3. cbn.
    unfold step at 2. cbn. unfold step. cbn.
    now rewrite <- app_assoc.
  - reflexivity.
Qed.

Lemma successful_exchange_witness :
  endpoint (ui (run (run mounted [Toggle])
                    [Typed "Do you have oak?"; Submit;
                     Settled (Ok (Some "Yes.") (Some "17"))]))
  = "http://localhost:8000/chat17".
Proof.
  rewrite (proj2 (@successful_exchange (run mounted [Toggle])
                    "Do you have oak?" (Some "Yes.") (Some "17")
                    eq_refl ltac:(discriminate) eq_refl)).
  reflexivity.
Defined.

End WidgetFacts.
